(** * Keyword Research Platform: a shallow embedding of [keyword_research.py]

    The development follows the Python module top to bottom:

    - [Float64]: Python's [float] is IEEE 754 binary64.  The operations are
      the ones of the standard library's [SpecFloat] at precision 53, and
      the built-ins the module calls on numbers ([/], [*], [+], [min],
      [round]) are written out over a small sum type of Python numbers.
    - [PyStr]: the string methods the module calls ([lower], [title],
      [split], [replace], [in]).
    - [Random]: the [random] module, as an interface with the contract of
      its documentation, and one executable instance.
    - [KeywordResearcher]: the class itself, method by method, in a state
      and exception monad over the researcher object and the generator.
    - the Flask route handlers.

    Theorems come after all the definitions. *)

From Stdlib Require Import ZArith List Bool String Ascii Lia Permutation Sorted.
From Stdlib Require Import SpecFloat.
Import ListNotations.

Local Open Scope Z_scope.

(** ** Exceptions and results *)

(** The exceptions the modelled code can raise. *)
Inductive exn : Type :=
| OverflowError
| ZeroDivisionError
| AttributeError
| IndexError
| ValueError.

Inductive result (A : Type) : Type :=
| Ok (a : A)
| Raise (e : exn).

Arguments Ok {A} a.
Arguments Raise {A} e.

Definition rbind {A B : Type} (r : result A) (k : A -> result B) : result B :=
  match r with
  | Ok a => k a
  | Raise e => Raise e
  end.

Declare Scope result_scope.
Delimit Scope result_scope with result.
Notation "x <- r ;; k" := (rbind r (fun x => k))
  (at level 61, r at next level, right associativity) : result_scope.

(** ** Python floats *)

Module Float64.

Definition prec : Z := 53.
Definition emax : Z := 1024.

Definition float64 : Type := spec_float.

Definition valid (x : float64) : bool := valid_binary prec emax x.

Definition add : float64 -> float64 -> float64 := SFadd prec emax.
Definition mul : float64 -> float64 -> float64 := SFmul prec emax.
Definition div : float64 -> float64 -> float64 := SFdiv prec emax.
Definition ltb : float64 -> float64 -> bool := SFltb.
Definition leb : float64 -> float64 -> bool := SFleb.

Definition is_zero (x : float64) : bool :=
  match x with
  | S754_zero _ => true
  | _ => false
  end.

(** The float nearest to the integer [n] (ties to even); an infinity when
    [n] is out of range. *)
Definition of_Z (n : Z) : float64 := binary_normalize prec emax n 0 false.

(** The float nearest to [a / b] for integers [a] and [b <> 0]. *)
Definition of_ratio (a b : Z) : float64 :=
  match a, b with
  | _, Z0 => S754_nan
  | Z0, Zpos _ => S754_zero false
  | Z0, Zneg _ => S754_zero true
  | Zpos p, Zpos q => div (S754_finite false p 0) (S754_finite false q 0)
  | Zpos p, Zneg q => div (S754_finite false p 0) (S754_finite true q 0)
  | Zneg p, Zpos q => div (S754_finite true p 0) (S754_finite false q 0)
  | Zneg p, Zneg q => div (S754_finite true p 0) (S754_finite true q 0)
  end.

(** [round_half_even n d], for [d > 0]: the integer nearest to [n / d],
    the even one of the two when [n / d] lies half way. *)
Definition round_half_even (n d : Z) : Z :=
  let q := n / d in
  let r := n mod d in
  match 2 * r ?= d with
  | Lt => q
  | Gt => q + 1
  | Eq => if Z.even q then q else q + 1
  end.

(** The integer nearest to [m * 2^e * 10^ndigits], ties to even. *)
Definition scaled_decimal (m : positive) (e : Z) (ndigits : Z) : Z :=
  if 0 <=? e
  then Zpos m * 2 ^ e * 10 ^ ndigits
  else round_half_even (Zpos m * 10 ^ ndigits) (2 ^ (- e)).

(** The float written [k / 10^ndigits] in decimal: what [float] gives on
    the decimal string, the nearest float. *)
Definition of_decimal (k : Z) (ndigits : Z) : float64 :=
  of_ratio k (10 ^ ndigits).

(** [round(x, ndigits)] on a float, for [0 <= ndigits] (the module calls it
    with 1 and 2): infinities, NaN and zeros round to themselves; a finite
    [x] is rounded correctly to [ndigits] decimals (the decimal string of
    the exact binary value, ties to even) and read back as a float. *)
Definition round (x : float64) (ndigits : Z) : float64 :=
  match x with
  | S754_finite s m e =>
      let k := scaled_decimal m e ndigits in
      if k =? 0 then S754_zero s
      else of_decimal (if s then - k else k) ndigits
  | _ => x
  end.

(** Exact comparison of an integer with a float, as Python compares an
    [int] with a [float]. *)
Definition compare_Z (n : Z) (x : float64) : option comparison :=
  match x with
  | S754_nan => None
  | S754_infinity s => Some (if s then Gt else Lt)
  | S754_zero _ => Some (n ?= 0)
  | S754_finite s m e =>
      let v := if s then Zneg m else Zpos m in
      Some (if 0 <=? e then n ?= v * 2 ^ e else n * 2 ^ (- e) ?= v)
  end.

End Float64.

Import Float64.

(** ** Python numbers, as far as the module mixes [int] and [float] *)

Inductive pynum : Type :=
| PyInt (n : Z)
| PyFloat (x : float64).

Local Open Scope result_scope.

(** [float(n)]: [OverflowError] when the integer is too large. *)
Definition int_to_float (n : Z) : result float64 :=
  match of_Z n with
  | S754_infinity _ => Raise OverflowError
  | x => Ok x
  end.

Definition as_float (v : pynum) : result float64 :=
  match v with
  | PyInt n => int_to_float n
  | PyFloat x => Ok x
  end.

(** [a + b] *)
Definition py_add (a b : pynum) : result pynum :=
  match a, b with
  | PyInt x, PyInt y => Ok (PyInt (x + y))
  | _, _ =>
      x <- as_float a ;;
      y <- as_float b ;;
      Ok (PyFloat (add x y))
  end.

(** [a * b] *)
Definition py_mul (a b : pynum) : result pynum :=
  match a, b with
  | PyInt x, PyInt y => Ok (PyInt (x * y))
  | _, _ =>
      x <- as_float a ;;
      y <- as_float b ;;
      Ok (PyFloat (mul x y))
  end.

(** [a / b]: true division, always a float.  Two integers give the float
    nearest to the exact quotient. *)
Definition py_truediv (a b : pynum) : result float64 :=
  match a, b with
  | PyInt x, PyInt y =>
      if y =? 0 then Raise ZeroDivisionError
      else match of_ratio x y with
           | S754_infinity _ => Raise OverflowError
           | q => Ok q
           end
  | _, _ =>
      x <- as_float a ;;
      y <- as_float b ;;
      if is_zero y then Raise ZeroDivisionError else Ok (div x y)
  end.

(** [a < b] *)
Definition py_lt (a b : pynum) : bool :=
  match a, b with
  | PyInt x, PyInt y => x <? y
  | PyFloat x, PyFloat y => ltb x y
  | PyInt n, PyFloat x =>
      match compare_Z n x with Some Lt => true | _ => false end
  | PyFloat x, PyInt n =>
      match compare_Z n x with Some Gt => true | _ => false end
  end.

(** [a == b] *)
Definition py_eq (a b : pynum) : bool :=
  match a, b with
  | PyInt x, PyInt y => x =? y
  | PyFloat x, PyFloat y => SFeqb x y
  | PyInt n, PyFloat x | PyFloat x, PyInt n =>
      match compare_Z n x with Some Eq => true | _ => false end
  end.

(** [min(a, b)]: the second argument replaces the first only when it is
    strictly smaller. *)
Definition py_min (a b : pynum) : pynum :=
  if py_lt b a then b else a.

(** ** Python strings

    The methods of [str] are modelled on strings of 7-bit ASCII characters,
    which is what every keyword of the store is.  On such strings the case
    mappings and the white space test below are Python's.  On other
    characters Python follows the Unicode tables (U+212A lowercases to "k",
    U+00A0 is white space, [title] can change the length of a string) and
    these definitions do not: a statement on a string of a request
    therefore assumes [is_ascii] of it, unless its other hypotheses confine
    the string to ASCII already. *)

Module PyStr.

Local Open Scope nat_scope.

Definition is_upper (c : ascii) : bool :=
  let n := nat_of_ascii c in (65 <=? n) && (n <=? 90).

Definition is_lower (c : ascii) : bool :=
  let n := nat_of_ascii c in (97 <=? n) && (n <=? 122).

Definition to_lower (c : ascii) : ascii :=
  if is_upper c then ascii_of_nat (nat_of_ascii c + 32) else c.

Definition to_upper (c : ascii) : ascii :=
  if is_lower c then ascii_of_nat (nat_of_ascii c - 32) else c.

(** [str.isspace] on one character: tab to carriage return, the four
    separators 28 to 31, and the space. *)
Definition is_space (c : ascii) : bool :=
  let n := nat_of_ascii c in
  ((9 <=? n) && (n <=? 13)) || ((28 <=? n) && (n <=? 32)).

(** [s.isascii()]: every character is below 128. *)
Fixpoint is_ascii (s : string) : bool :=
  match s with
  | EmptyString => true
  | String c t => (nat_of_ascii c <? 128) && is_ascii t
  end.

(** [s.lower()] *)
Fixpoint lower (s : string) : string :=
  match s with
  | EmptyString => EmptyString
  | String c t => String (to_lower c) (lower t)
  end.

(** [s.title()]: a letter that follows a letter is lowercased, any other
    letter is uppercased, everything else is kept. *)
Fixpoint title_from (previous_is_cased : bool) (s : string) : string :=
  match s with
  | EmptyString => EmptyString
  | String c t =>
      if is_lower c then
        String (if previous_is_cased then c else to_upper c) (title_from true t)
      else if is_upper c then
        String (if previous_is_cased then to_lower c else c) (title_from true t)
      else String c (title_from false t)
  end.

Definition title (s : string) : string := title_from false s.

Definition is_cased (c : ascii) : bool := is_lower c || is_upper c.

(** The rule of [title] on one character, given whether the character
    before it is a letter. *)
Definition title_char (after_letter : bool) (c : ascii) : ascii :=
  if is_cased c then (if after_letter then to_lower c else to_upper c) else c.

(** [s.replace(old, new)] for one-character [old] and [new]. *)
Fixpoint replace (old new : ascii) (s : string) : string :=
  match s with
  | EmptyString => EmptyString
  | String c t => String (if Ascii.eqb c old then new else c) (replace old new t)
  end.

(** [s.split()]: the maximal runs of characters that are not white space.
    [word] is the run read so far. *)
Fixpoint split_from (word : string) (s : string) : list string :=
  match s with
  | EmptyString =>
      match word with EmptyString => [] | _ => [word] end
  | String c t =>
      if is_space c then
        match word with
        | EmptyString => split_from EmptyString t
        | _ => word :: split_from EmptyString t
        end
      else split_from (word ++ String c EmptyString) t
  end.

Definition split (s : string) : list string := split_from EmptyString s.




(** [sub in s] *)
Fixpoint contains (sub s : string) : bool :=
  prefix sub s ||
  match s with
  | EmptyString => false
  | String _ t => contains sub t
  end.

End PyStr.

(** ** Python lists *)

(** [l[:stop]] for an integer [stop]: a negative [stop] counts from the
    end. *)
Definition slice_to {A : Type} (l : list A) (stop : Z) : list A :=
  if 0 <=? stop then firstn (Z.to_nat stop) l
  else firstn (List.length l - Z.to_nat (- stop)) l.

(** [list.sort(key=..., reverse=True)] and [sorted(..., key=..., reverse=True)]
    are stable: records with equal keys keep their order.  The model is the
    stable insertion sort; [sort_desc_unique] below shows that no other
    result is stable and sorted. *)
Section SortDesc.
Context {A : Type} (key : A -> Z).

Fixpoint insert_desc (x : A) (l : list A) : list A :=
  match l with
  | [] => [x]
  | y :: l' => if key y <=? key x then x :: l else y :: insert_desc x l'
  end.

Definition sort_desc (l : list A) : list A := fold_right insert_desc [] l.

(** [x] may stand before [y] in a list sorted by descending key. *)
Definition desc (x y : A) : Prop := key y <= key x.
End SortDesc.

(** ** The [random] module

    The generator is hidden global state of the Python process.  Its
    operations take the generator and return the value drawn and the
    generator after the draw. *)

Class Random (G : Type) : Type := {
  (** [random.randint(a, b)] *)
  randint : Z -> Z -> G -> Z * G;
  (** [random.uniform(a, b)] *)
  uniform : float64 -> float64 -> G -> float64 * G;
  (** the index [random.choice] draws for a sequence of [n] elements *)
  randbelow : nat -> G -> nat * G;
  (** the positions [random.sample] draws: [k] out of [n] *)
  sample_indices : nat -> nat -> G -> list nat * G
}.

(** What the documentation of [random] promises of each draw. *)
Class RandomLaws {G : Type} (R : Random G) : Prop := {
  randint_range : forall a b g,
    a <= b -> a <= fst (randint a b g) <= b;
  uniform_range : forall a b g,
    valid a = true -> valid b = true -> leb a b = true ->
    valid (fst (uniform a b g)) = true /\
    leb a (fst (uniform a b g)) = true /\
    leb (fst (uniform a b g)) b = true;
  randbelow_range : forall n g,
    (0 < n)%nat -> (fst (randbelow n g) < n)%nat;
  sample_indices_spec : forall n k g,
    (k <= n)%nat ->
    List.length (fst (sample_indices n k g)) = k /\
    NoDup (fst (sample_indices n k g)) /\
    Forall (fun i => (i < n)%nat) (fst (sample_indices n k g))
}.

(** One generator to run the model on: a linear congruential sequence. *)
Module Lcg.

Definition next (g : Z) : Z := (g * 1103515245 + 12345) mod 2147483648.

Definition draw (g : Z) : Z := g / 65536.

Definition lcg_randint (a b : Z) (g : Z) : Z * Z :=
  (a + draw g mod (b - a + 1), next g).

(** [a + (b - a) * random()], kept when it lands in the interval. *)
Definition lcg_uniform (a b : float64) (g : Z) : float64 * Z :=
  let r := of_ratio (draw g) 32768 in
  let x := add a (mul (add b (SFopp a)) r) in
  (if valid x && leb a x && leb x b then x else a, next g).

Definition lcg_randbelow (n : nat) (g : Z) : nat * Z :=
  (Z.to_nat (draw g mod Z.of_nat n), next g).

(** The [j]-th element of the pool and the pool without it. *)
Fixpoint take_nth (j : nat) (pool : list nat) : option (nat * list nat) :=
  match pool, j with
  | [], _ => None
  | x :: pool', O => Some (x, pool')
  | x :: pool', Datatypes.S j' =>
      match take_nth j' pool' with
      | Some (y, rest) => Some (y, x :: rest)
      | None => None
      end
  end.

Fixpoint lcg_sample_from (pool : list nat) (k : nat) (g : Z) : list nat * Z :=
  match k with
  | O => ([], g)
  | Datatypes.S k' =>
      let (j, g') := lcg_randbelow (List.length pool) g in
      match take_nth j pool with
      | Some (x, rest) =>
          let (l, g'') := lcg_sample_from rest k' g' in (x :: l, g'')
      | None => ([], g')
      end
  end.

Definition lcg_sample_indices (n k : nat) (g : Z) : list nat * Z :=
  lcg_sample_from (seq 0 n) k g.

#[export] Instance lcg_random : Random Z := {
  randint := lcg_randint;
  uniform := lcg_uniform;
  randbelow := lcg_randbelow;
  sample_indices := lcg_sample_indices
}.

End Lcg.

(** ** The keyword records *)

Record keyword_record : Type := {
  keyword : string;
  search_volume : Z;
  difficulty : Z;
  cpc : float64;
  competition : string;
  trend : string;
  category : string
}.

(** The result of an analysis: the base record and the five added fields. *)
Record analysis : Type := {
  kw_data : keyword_record;
  opportunity_score : float64;
  related_keywords : list keyword_record;
  seasonal_trends : list (string * Z);
  serp_features : list string;
  content_suggestions : list string
}.

Local Open Scope string_scope.

Definition base_keywords : list string :=
  [ "digital marketing"; "seo optimization"; "content marketing"; "social media";
    "web development"; "python programming"; "data science"; "machine learning";
    "artificial intelligence"; "cloud computing"; "cybersecurity"; "blockchain";
    "e-commerce"; "online business"; "startup"; "entrepreneurship" ].

Definition variations (base : string) : list string :=
  [ base ++ " tools";
    base ++ " strategy";
    base ++ " tips";
    "best " ++ base;
    base ++ " guide";
    base ++ " course";
    base ++ " services";
    base ++ " agency";
    "how to " ++ base;
    base ++ " tutorial" ].

Definition competitions : list string := [ "Low"; "Medium"; "High" ].
Definition trends : list string := [ "Rising"; "Stable"; "Declining" ].

Definition months : list string :=
  [ "Jan"; "Feb"; "Mar"; "Apr"; "May"; "Jun";
    "Jul"; "Aug"; "Sep"; "Oct"; "Nov"; "Dec" ].

Definition features : list string :=
  [ "Featured Snippets"; "People Also Ask"; "Local Pack";
    "Images"; "Videos"; "Shopping"; "News" ].

(** The bounds of the draws, as the literals of the source. *)
Definition store_volume_max : Z := 50000.
Definition new_volume_max : Z := 10000.
Definition cpc_min : float64 := of_decimal 5 1.         (* 0.5 *)
Definition store_cpc_max : float64 := of_decimal 150 1. (* 15.0 *)
Definition new_cpc_max : float64 := of_decimal 100 1.   (* 10.0 *)

(** The body of a request, as [request.get_json()] returns it. *)
#[local] Unset Elimination Schemes.
Inductive json : Type :=
| JNull
| JBool (b : bool)
| JNumber (n : Z)
| JString (s : string)
| JArray (items : list json)
| JObject (fields : list (string * json)).
#[local] Set Elimination Schemes.

(** ** [class KeywordResearcher] *)

(** [_calculate_opportunity_score(kw_data)]; the three partial scores first. *)
Definition volume_score (kw : keyword_record) : result pynum :=
  (q <- py_truediv (PyInt (search_volume kw)) (PyInt 1000) ;;
   Ok (py_min (PyFloat q) (PyInt 50)))%result.

Definition difficulty_score (kw : keyword_record) : pynum :=
  PyInt (100 - difficulty kw).

Definition cpc_score (kw : keyword_record) : result pynum :=
  (p <- py_mul (PyFloat (cpc kw)) (PyInt 5) ;;
   Ok (py_min p (PyInt 30)))%result.

Definition calculate_opportunity_score (kw : keyword_record) : result float64 :=
  (v <- volume_score kw ;;
   let d := difficulty_score kw in
   c <- cpc_score kw ;;
   vd <- py_add v d ;;
   total <- py_add vd c ;;
   mean <- py_truediv total (PyInt 3) ;;
   Ok (round mean 1))%result.

(** The test and the body of [_get_related_keywords(keyword)], on the store
    the method reads. *)
Definition is_related (words : list string) (keyword0 : string) (kw : keyword_record) : bool :=
  existsb (fun word => PyStr.contains word (keyword kw)) words
  && negb (String.eqb (keyword kw) keyword0).

Definition related_in (db : list keyword_record) (keyword0 : string)
  : list keyword_record :=
  let words := PyStr.split keyword0 in
  let related :=
    fold_left (fun related kw =>
                 if is_related words keyword0 kw then (related ++ [kw])%list else related)
              db [] in
  slice_to (sort_desc search_volume related) 10.

(** [_get_content_suggestions(keyword)] *)
Definition get_content_suggestions (keyword0 : string) : list string :=
  [ "Ultimate Guide to " ++ PyStr.title keyword0;
    "Top 10 " ++ PyStr.title keyword0 ++ " Strategies";
    "How to Master " ++ PyStr.title keyword0;
    PyStr.title keyword0 ++ ": Best Practices";
    "Common " ++ PyStr.title keyword0 ++ " Mistakes to Avoid" ].

(** The test and the body of [search_keywords], on the store the method
    reads. *)
Definition matches_seed (seed_keyword : string) (kw : keyword_record) : bool :=
  PyStr.contains (PyStr.lower seed_keyword) (PyStr.lower (keyword kw)).

Definition search_in (db : list keyword_record) (seed_keyword : string) (limit : Z)
  : list keyword_record :=
  let results :=
    fold_left (fun results kw =>
                 if matches_seed seed_keyword kw then (results ++ [kw])%list else results)
              db [] in
  let results := sort_desc search_volume results in
  slice_to results limit.

(** Every keyword of a list of records is an ASCII string, as the keywords
    of the store are. *)
Definition ascii_keywords (db : list keyword_record) : bool :=
  forallb (fun kw => PyStr.is_ascii (keyword kw)) db.

(** The test of the lookup loop of [analyze_keyword]. *)
Definition same_keyword (keyword0 : string) (kw : keyword_record) : bool :=
  String.eqb (PyStr.lower (keyword kw)) (PyStr.lower keyword0).

Section Researcher.
Context {G : Type} {R : Random G}.

(** The state of the process: the [researcher] object and the generator. *)
Record world : Type := {
  keyword_database : list keyword_record;
  rng : G
}.

(** Computations that read and write the state and may raise. *)
Definition M (A : Type) : Type := world -> result A * world.

Definition ret {A : Type} (a : A) : M A := fun w => (Ok a, w).

Definition bind {A B : Type} (m : M A) (k : A -> M B) : M B :=
  fun w =>
    match m w with
    | (Ok a, w') => k a w'
    | (Raise e, w') => (Raise e, w')
    end.

Definition raise {A : Type} (e : exn) : M A := fun w => (Raise e, w).

Definition lift_result {A : Type} (r : result A) : M A := fun w => (r, w).

Definition read_database : M (list keyword_record) :=
  fun w => (Ok (keyword_database w), w).

Definition write_database (db : list keyword_record) : M unit :=
  fun w => (Ok tt, {| keyword_database := db; rng := rng w |}).

Definition draw {A : Type} (f : G -> A * G) : M A :=
  fun w =>
    let (a, g) := f (rng w) in
    (Ok a, {| keyword_database := keyword_database w; rng := g |}).

Declare Scope M_scope.
Delimit Scope M_scope with M.
Notation "x <- m ;; k" := (bind m (fun x => k))
  (at level 61, m at next level, right associativity) : M_scope.
Local Open Scope M_scope.

(** [for x in l: acc = body(acc, x)] *)
Fixpoint for_each {A B : Type} (l : list A) (body : B -> A -> M B) (acc : B) : M B :=
  match l with
  | [] => ret acc
  | x :: l' => acc' <- body acc x ;; for_each l' body acc'
  end.

(** A computation that leaves the store as it found it, whatever it
    returns or raises. *)
Definition preserves_database {A : Type} (m : M A) : Prop :=
  forall w, keyword_database (snd (m w)) = keyword_database w.

(** [random.choice(seq)] *)
Definition choice {A : Type} (seq : list A) : M A :=
  match seq with
  | [] => raise IndexError
  | _ :: _ =>
      i <- draw (randbelow (List.length seq)) ;;
      match nth_error seq i with
      | Some x => ret x
      | None => raise IndexError
      end
  end.

(** [random.sample(population, k)] *)
Definition sample {A : Type} (population : list A) (k : Z) : M (list A) :=
  if (k <? 0)%Z || (Z.of_nat (List.length population) <? k)%Z
  then raise ValueError
  else
    idx <- draw (sample_indices (List.length population) (Z.to_nat k)) ;;
    for_each idx
      (fun acc i =>
         match nth_error population i with
         | Some x => ret (acc ++ [x])%list
         | None => raise IndexError
         end)
      [].

(** The dictionary literal both [_generate_mock_keywords] and
    [analyze_keyword] build, with the draws in the order of its entries. *)
Definition new_record (keyword0 : string) (volume_max : Z) (cpc_max : float64)
           (category0 : string) : M keyword_record :=
  v <- draw (randint 100 volume_max) ;;
  d <- draw (randint 1 100) ;;
  u <- draw (uniform cpc_min cpc_max) ;;
  c <- choice competitions ;;
  t <- choice trends ;;
  ret {| keyword := keyword0;
         search_volume := v;
         difficulty := d;
         cpc := round u 2;
         competition := c;
         trend := t;
         category := category0 |}.

(** [_generate_mock_keywords()] *)
Definition generate_mock_keywords : M (list keyword_record) :=
  for_each base_keywords
    (fun keywords base =>
       for_each (variations base)
         (fun keywords variation =>
            kw <- new_record variation store_volume_max store_cpc_max
                             (PyStr.replace " " "_" base) ;;
            ret (keywords ++ [kw])%list)
         keywords)
    [].

(** [__init__()] *)
Definition init : M unit :=
  keywords <- generate_mock_keywords ;;
  write_database keywords.

(** [search_keywords(seed_keyword, limit=50)] *)
Definition search_keywords (seed_keyword : string) (limit : Z)
  : M (list keyword_record) :=
  db <- read_database ;;
  ret (search_in db seed_keyword limit).

Definition default_limit : Z := 50.

(** [_get_related_keywords(keyword)] *)
Definition get_related_keywords (keyword0 : string) : M (list keyword_record) :=
  db <- read_database ;;
  ret (related_in db keyword0).

(** [_generate_seasonal_data()] *)
Definition generate_seasonal_data : M (list (string * Z)) :=
  for_each months
    (fun acc month =>
       v <- draw (randint 70 130) ;;
       ret (acc ++ [(month, v)])%list)
    [].

(** [_get_serp_features()] *)
Definition get_serp_features : M (list string) :=
  k <- draw (randint 2 5) ;;
  sample features k.

(** [analyze_keyword(keyword)] *)
Definition analyze_keyword (keyword0 : string) : M analysis :=
  db <- read_database ;;
  kw <- match find (same_keyword keyword0) db with
        | Some kw => ret kw
        | None => new_record keyword0 new_volume_max new_cpc_max "general"
        end ;;
  score <- lift_result (calculate_opportunity_score kw) ;;
  related <- get_related_keywords keyword0 ;;
  seasonal <- generate_seasonal_data ;;
  serp <- get_serp_features ;;
  ret {| kw_data := kw;
         opportunity_score := score;
         related_keywords := related;
         seasonal_trends := seasonal;
         serp_features := serp;
         content_suggestions := get_content_suggestions keyword0 |}.

(** *** The Flask routes *)

(** [data.get(key, default)] on the parsed request body. *)
Definition dict_get (data : json) (key : string) (default : json) : result json :=
  match data with
  | JObject fields =>
      match find (fun kv => String.eqb (fst kv) key) fields with
      | Some (_, v) => Ok v
      | None => Ok default
      end
  | _ => Raise AttributeError
  end.

(** [POST /search].  A seed that is not a string has no [lower]: the loop
    of [search_keywords] raises on the first record it visits. *)
Definition search_route (data : json) : M (list keyword_record) :=
  seed_keyword <- lift_result (dict_get data "seed_keyword" (JString "")) ;;
  match seed_keyword with
  | JString s => search_keywords s default_limit
  | _ =>
      db <- read_database ;;
      match db with
      | [] => ret []
      | _ :: _ => raise AttributeError
      end
  end.

(** [POST /analyze].  A keyword that is not a string has neither [lower]
    nor [split]: on an empty store the record is still drawn first. *)
Definition analyze_route (data : json) : M analysis :=
  keyword0 <- lift_result (dict_get data "keyword" (JString "")) ;;
  match keyword0 with
  | JString s => analyze_keyword s
  | _ =>
      db <- read_database ;;
      match db with
      | [] =>
          _ <- new_record "" new_volume_max new_cpc_max "general" ;;
          raise AttributeError
      | _ :: _ => raise AttributeError
      end
  end.

(** The process at startup: [researcher = KeywordResearcher()]. *)
Definition startup (g : G) : result unit * world :=
  init {| keyword_database := []; rng := g |}.

End Researcher.

Arguments world G : clear implicits.
Arguments M G A : clear implicits.



(** ** Words for the statements *)

(** [x] is the float of a decimal with two digits, [k / 100] for an integer
    [lo <= k <= hi]. *)
Definition two_decimals_between (lo hi : Z) (x : float64) : Prop :=
  exists k : Z, (lo <= k <= hi)%Z /\ x = of_decimal k 2.

(** What the five draws of a record give, for a volume up to [volume_max]
    and a cost per click up to [cmax], that is [cents_max / 100]. *)
Definition drawn_record_ok (volume_max cents_max : Z) (cmax : float64)
           (kw : keyword_record) : Prop :=
  (100 <= search_volume kw <= volume_max)%Z /\
  (1 <= difficulty kw <= 100)%Z /\
  two_decimals_between 50 cents_max (cpc kw) /\
  valid (cpc kw) = true /\
  leb cpc_min (cpc kw) = true /\
  leb (cpc kw) cmax = true /\
  In (competition kw) competitions /\
  In (trend kw) trends.

(** The base topic and the variation of each record of the store, in the
    order [_generate_mock_keywords] appends them. *)
Definition store_plan : list (string * string) :=
  flat_map (fun base => map (pair base) (variations base)) base_keywords.

(** The invariant of a record of the store. *)
Definition store_record_ok (kw : keyword_record) : Prop :=
  keyword kw <> "" /\
  drawn_record_ok 50000 1500 store_cpc_max kw /\
  exists base,
    In base base_keywords /\
    In (keyword kw) (variations base) /\
    category kw = PyStr.replace " " "_" base.

(** The example generator state the witnesses run on. *)
Definition example_seed : Z := 42%Z.

(** The process after startup from the generator state [g], at any later
    generator state [g']: the store is the one startup built. *)
Definition started {G : Type} {R : Random G} (g g' : G) : world G :=
  {| keyword_database := keyword_database (snd (startup g)); rng := g' |}.

(** A small store and a state to run the methods on. *)
Definition example_store : list keyword_record :=
  [ {| keyword := "seo optimization tips"; search_volume := 5000%Z;
       difficulty := 40%Z; cpc := of_decimal 300 2; competition := "Low";
       trend := "Rising"; category := "seo_optimization" |};
    {| keyword := "best seo optimization"; search_volume := 12000%Z;
       difficulty := 75%Z; cpc := of_decimal 725 2; competition := "High";
       trend := "Stable"; category := "seo_optimization" |};
    {| keyword := "startup guide"; search_volume := 5000%Z;
       difficulty := 12%Z; cpc := of_decimal 50 2; competition := "Medium";
       trend := "Declining"; category := "startup" |} ].

Definition example_world : world Z :=
  {| keyword_database := example_store; rng := example_seed |}.

(** The value [m * 2^e] of a mantissa and an exponent, scaled by [2^3000]
    so that it is an integer for every exponent a binary64 operation meets:
    the exact values of floats are compared through it. *)
Definition scaled (m e : Z) : Z := (m * 2 ^ (e + 3000))%Z.

(** The scaled values of 1 and of [1 / 1024]. *)
Definition scale_one : Z := (2 ^ 3000)%Z.
Definition scale_unit : Z := (2 ^ 2990)%Z.

(** [within lo hi x]: [x] is a positive normal float whose value lies between
    [lo / 1024] and [hi / 1024]. *)
Definition within (lo hi : Z) (x : float64) : Prop :=
  exists m e,
    x = S754_finite false m e /\
    (2 ^ 52 <= Zpos m < 2 ^ 53)%Z /\ (-1074 <= e <= 971)%Z /\
    (lo * scale_unit <= scaled (Zpos m) e <= hi * scale_unit)%Z.

(** The same for a number that is an [int] or a [float]. *)
Definition num_within (lo hi : Z) (v : pynum) : Prop :=
  match v with
  | PyInt n => (lo <= 1024 * n <= hi)%Z
  | PyFloat x => within lo hi x
  end.

(** * Facts about the model *)

Local Open Scope list_scope.
Local Open Scope Z_scope.

(** ** Binary64 *)

Lemma digits2_pos_bounds (p : positive) :
  2 ^ (Zpos (digits2_pos p) - 1) <= Zpos p < 2 ^ Zpos (digits2_pos p).
Proof.
  induction p as [p IH | p IH | ]; cbn [digits2_pos].
  - rewrite Pos2Z.inj_succ.
    replace (Z.succ (Zpos (digits2_pos p)) - 1) with (Z.succ (Zpos (digits2_pos p) - 1)) by lia.
    rewrite !Z.pow_succ_r by lia. lia.
  - rewrite Pos2Z.inj_succ.
    replace (Z.succ (Zpos (digits2_pos p)) - 1) with (Z.succ (Zpos (digits2_pos p) - 1)) by lia.
    rewrite !Z.pow_succ_r by lia. lia.
  - cbn. lia.
Qed.

Lemma digits2_pos_unique (p : positive) (k : Z) :
  2 ^ (k - 1) <= Zpos p < 2 ^ k -> Zpos (digits2_pos p) = k.
Proof.
  intros [Hlo Hhi].
  pose proof (digits2_pos_bounds p) as [Dlo Dhi].
  assert (0 < k).
  { destruct (Z_lt_le_dec 0 k) as [|Hk]; [assumption|].
    destruct (Z.eq_dec k 0) as [->|]; [cbn in Hhi; lia|].
    rewrite Z.pow_neg_r in Hhi by lia. lia. }
  destruct (Z_lt_le_dec (Zpos (digits2_pos p)) k) as [Hlt|Hge].
  - assert (2 ^ Zpos (digits2_pos p) <= 2 ^ (k - 1)) by (apply Z.pow_le_mono_r; lia).
    lia.
  - destruct (Z_lt_le_dec k (Zpos (digits2_pos p))) as [Hgt|]; [|lia].
    assert (2 ^ k <= 2 ^ (Zpos (digits2_pos p) - 1)) by (apply Z.pow_le_mono_r; lia).
    lia.
Qed.

(** A valid float whose exponent is above the least one is normal: its
    mantissa has 53 bits. *)
Lemma valid_normal (s : bool) (m : positive) (e : Z) :
  valid (S754_finite s m e) = true -> -1074 < e ->
  2 ^ 52 <= Zpos m < 2 ^ 53 /\ e <= 971.
Proof.
  unfold valid, valid_binary, bounded, canonical_mantissa, fexp, SpecFloat.emin.
  intros H He. apply andb_true_iff in H. destruct H as [H1 H2].
  apply Z.eqb_eq in H1. apply Z.leb_le in H2.
  change (3 - emax - prec) with (-1074) in H1.
  change (emax - prec) with 971 in H2.
  change prec with 53 in H1.
  assert (Zpos (digits2_pos m) = 53) as D by lia.
  pose proof (digits2_pos_bounds m) as B. rewrite D in B.
  change (53 - 1) with 52 in B. split; [exact B | exact H2].
Qed.

Lemma leb_finite_pos (m1 : positive) (e1 : Z) (x : float64) :
  leb (S754_finite false m1 e1) x = true ->
  x = S754_infinity false \/
  exists m e, x = S754_finite false m e /\ (e1 < e \/ (e1 = e /\ Zpos m1 <= Zpos m)).
Proof.
  unfold leb, SFleb, SFcompare.
  destruct x as [s | s | | s m e]; try discriminate.
  - destruct s; [discriminate | auto].
  - destruct s; [discriminate|].
    destruct (Z.compare_spec e1 e) as [E|E|E]; intros H;
      right; exists m, e; (split; [reflexivity|]);
      [ | left; lia | discriminate].
    right. split; [exact E|].
    destruct (Pos.compare_cont Eq m1 m) eqn:C; try discriminate;
      fold (Pos.compare m1 m) in C.
    + apply Pos.compare_eq in C. subst. lia.
    + rewrite Pos.compare_lt_iff in C. lia.
Qed.

Lemma leb_pos_finite (s : bool) (m : positive) (e : Z) (m2 : positive) (e2 : Z) :
  leb (S754_finite s m e) (S754_finite false m2 e2) = true ->
  s = true \/ e < e2 \/ (e = e2 /\ Zpos m <= Zpos m2).
Proof.
  unfold leb, SFleb, SFcompare.
  destruct s; [auto|].
  destruct (Z.compare_spec e e2) as [E|E|E]; intros H; right;
    [ | left; lia | discriminate].
  right. split; [exact E|].
  destruct (Pos.compare_cont Eq m m2) eqn:C; try discriminate;
    fold (Pos.compare m m2) in C.
  - apply Pos.compare_eq in C. subst. lia.
  - rewrite Pos.compare_lt_iff in C. lia.
Qed.

Lemma leb_refl (x y : float64) : leb x y = true -> leb x x = true.
Proof.
  unfold leb, SFleb, SFcompare.
  destruct x as [s | s | | s m e]; try reflexivity.
  - destruct s; reflexivity.
  - destruct y; discriminate.
  - intros _. destruct s; rewrite Z.compare_refl;
      fold (Pos.compare m m); rewrite Pos.compare_refl; reflexivity.
Qed.

(** ** Rounding to decimals *)

Lemma round_half_even_bounds (n d lo hi : Z) :
  0 < d -> lo * d <= n <= hi * d ->
  lo <= round_half_even n d <= hi.
Proof.
  intros Hd [Hlo Hhi]. unfold round_half_even.
  pose proof (Z.div_mod n d ltac:(lia)) as E.
  pose proof (Z.mod_pos_bound n d Hd) as B.
  assert (lo <= n / d) by (apply Z.div_le_lower_bound; lia).
  assert (n / d <= hi) by (apply Z.div_le_upper_bound; nia).
  destruct (Z.compare_spec (2 * (n mod d)) d) as [C|C|C].
  - destruct (Z.even (n / d)); [lia|]. nia.
  - lia.
  - nia.
Qed.

(** Every integer of [lo, lo + n) passes a test that the whole range
    passes. *)
Lemma forallb_range (P : Z -> bool) (lo n : nat) :
  forallb P (map Z.of_nat (seq lo n)) = true ->
  forall k, Z.of_nat lo <= k < Z.of_nat (lo + n) -> P k = true.
Proof.
  intros H k Hk. rewrite forallb_forall in H. apply H.
  apply in_map_iff. exists (Z.to_nat k). split; [lia|].
  apply in_seq. lia.
Qed.

(** [round(u, 2)] of a float between 0.5 and a bound [cmax = mmax * 2^-49]
    is the float of a decimal with two digits, between 0.50 and [K / 100]. *)
Lemma round_2_between (u : float64) (mmax : positive) (K : Z) :
  valid u = true ->
  leb (S754_finite false 4503599627370496 (-53)) u = true ->
  leb u (S754_finite false mmax (-49)) = true ->
  Zpos mmax * 100 <= K * 2 ^ 49 -> 800 <= K ->
  exists k, 50 <= k <= K /\ round u 2 = of_decimal k 2.
Proof.
  intros Hv Hlo Hhi Hm HK.
  destruct (leb_finite_pos _ _ _ Hlo) as [->|(m & e & -> & Hlo')];
    [discriminate Hhi|].
  destruct (leb_pos_finite _ _ _ _ _ Hhi) as [?|Hhi']; [discriminate|].
  destruct (valid_normal _ _ _ Hv ltac:(lia)) as [Hn _].
  exists (scaled_decimal m e 2).
  assert (50 <= scaled_decimal m e 2 <= K) as B.
  { unfold scaled_decimal.
    destruct (Z.leb_spec 0 e) as [|_]; [lia|].
    change (10 ^ 2) with 100. change (2 ^ 52) with 4503599627370496 in Hn.
    change (2 ^ 53) with 9007199254740992 in Hn.
    change (2 ^ 49) with 562949953421312 in Hm.
    assert (e = -53 \/ e = -52 \/ e = -51 \/ e = -50 \/ e = -49) as He by lia.
    destruct He as [->|[->|[->|[->| ->]]]];
      apply round_half_even_bounds; cbn; lia. }
  split; [exact B|].
  unfold round. destruct (Z.eqb_spec (scaled_decimal m e 2) 0); [lia|reflexivity].
Qed.

(** ** Rounding a product to 53 bits *)

Lemma shr_1_m (r : shr_record) :
  0 <= shr_m r -> shr_m (shr_1 r) = shr_m r / 2.
Proof.
  destruct r as [m rb sb]. cbn [shr_m]. intros H.
  destruct m as [|p|p]; [reflexivity| |lia].
  destruct p as [p|p|]; cbn [shr_1 shr_m].
  - apply Z.div_unique with (r := 1); lia.
  - apply Z.div_unique with (r := 0); lia.
  - reflexivity.
Qed.

Lemma shr_m_iter (p : positive) (r : shr_record) :
  0 <= shr_m r ->
  shr_m (iter_pos shr_1 p r) = shr_m r / 2 ^ Zpos p.
Proof.
  revert r. induction p as [p IH | p IH | ]; intros r H; cbn [iter_pos].
  - assert (0 <= shr_m (shr_1 r)) by (rewrite shr_1_m by assumption; apply Z.div_pos; lia).
    assert (0 <= shr_m (iter_pos shr_1 p (shr_1 r)))
      by (rewrite IH by assumption; apply Z.div_pos; lia).
    rewrite IH, IH, shr_1_m by assumption.
    rewrite !Z.div_div by lia. f_equal.
    replace (Zpos p~1) with (1 + Zpos p + Zpos p) by lia.
    rewrite !Z.pow_add_r by lia. change (2 ^ 1) with 2. ring.
  - assert (0 <= shr_m (iter_pos shr_1 p r))
      by (rewrite IH by assumption; apply Z.div_pos; lia).
    rewrite IH, IH by assumption.
    rewrite !Z.div_div by lia. f_equal.
    replace (Zpos p~0) with (Zpos p + Zpos p) by lia.
    rewrite !Z.pow_add_r by lia. ring.
  - rewrite shr_1_m by assumption. reflexivity.
Qed.

Lemma round_nearest_even_bounds (m : Z) (l : location) :
  m <= round_nearest_even m l <= m + 1.
Proof.
  unfold round_nearest_even.
  destruct l as [|[| |]]; try lia. destruct (Z.even m); lia.
Qed.

(** Rounding [M * 2^E] to 53 bits, for [M] of more than 53 bits and a
    result above the subnormal range: the result is infinite, or a normal
    float that is at least the truncation of [M]. *)
Lemma binary_round_aux_normal (M : positive) (E d : Z) :
  Zpos (digits2_pos M) = d -> 53 < d -> -1074 <= d + E - 53 ->
  binary_round_aux prec emax false (Zpos M) E loc_Exact = S754_infinity false \/
  exists m2 e2,
    binary_round_aux prec emax false (Zpos M) E loc_Exact = S754_finite false m2 e2 /\
    2 ^ 52 <= Zpos m2 < 2 ^ 53 /\
    ((e2 = E + d - 53 /\ Zpos M / 2 ^ (d - 53) <= Zpos m2) \/ e2 = E + d - 52).
Proof.
  intros Hd Hd53 Hnorm.
  pose proof (digits2_pos_bounds M) as HM. rewrite Hd in HM.
  unfold binary_round_aux, shr_fexp.
  change (Zdigits2 (Zpos M)) with (Zpos (digits2_pos M)). rewrite Hd.
  assert (fexp prec emax (d + E) - E = d - 53) as ->
    by (unfold fexp, SpecFloat.emin, prec, emax; lia).
  destruct (d - 53) as [|p|p] eqn:Hn; [lia| |lia].
  cbn [shr shr_record_of_loc]. cbv beta iota zeta.
  set (r1 := iter_pos shr_1 p _).
  assert (shr_m r1 = Zpos M / 2 ^ Zpos p) as Hr1
    by (unfold r1; rewrite shr_m_iter; [reflexivity | cbn; lia]).
  assert (2 ^ (d - 1) = 2 ^ Zpos p * 2 ^ 52) as Hlo
    by (rewrite <- Z.pow_add_r by lia; f_equal; lia).
  assert (2 ^ d = 2 ^ Zpos p * 2 ^ 53) as Hhi
    by (rewrite <- Z.pow_add_r by lia; f_equal; lia).
  assert (0 < 2 ^ Zpos p) as Hp by (apply Z.pow_pos_nonneg; lia).
  assert (2 ^ 52 <= shr_m r1 < 2 ^ 53) as Hm1.
  { rewrite Hr1. split.
    - apply Z.div_le_lower_bound; lia.
    - apply Z.div_lt_upper_bound; lia. }
  pose proof (round_nearest_even_bounds (shr_m r1) (loc_of_shr_record r1)) as Hm2.
  set (m2 := round_nearest_even (shr_m r1) (loc_of_shr_record r1)) in *.
  change (2 ^ 52) with 4503599627370496 in *.
  change (2 ^ 53) with 9007199254740992 in *.
  destruct (Z_lt_le_dec m2 9007199254740992) as [Hlt|Hge].
  - destruct m2 as [|q|q] eqn:Hq; [lia| |lia].
    assert (Zpos (digits2_pos q) = 53) as Dq
      by (apply digits2_pos_unique; cbn; lia).
    cbn [Zdigits2]. rewrite Dq.
    assert (fexp prec emax (53 + (E + Zpos p)) - (E + Zpos p) = 0) as ->
      by (unfold fexp, SpecFloat.emin, prec, emax; lia).
    cbn [shr shr_m].
    destruct (E + Zpos p <=? emax - prec); [right|left; reflexivity].
    exists q, (E + Zpos p). split; [reflexivity|]. split; [lia|].
    left. split; [lia|]. rewrite <- Hr1. lia.
  - assert (m2 = 9007199254740992) as -> by lia.
    change (Zdigits2 9007199254740992) with 54.
    assert (fexp prec emax (54 + (E + Zpos p)) - (E + Zpos p) = 1) as ->
      by (unfold fexp, SpecFloat.emin, prec, emax; lia).
    cbn [shr shr_m iter_pos shr_1].
    destruct (E + Zpos p + 1 <=? emax - prec); [right|left; reflexivity].
    exists 4503599627370496%positive, (E + Zpos p + 1).
    split; [reflexivity|]. split; [lia|]. right. lia.
Qed.

(** Five times a float that is at least 6.0 is at least 30, exactly. *)
Lemma mul_5_at_least_30 (x : float64) :
  valid x = true ->
  leb (S754_finite false 6755399441055744 (-50)) x = true ->
  exists c,
    compare_Z 30 (mul x (S754_finite false 5629499534213120 (-50))) = Some c /\
    c <> Gt.
Proof.
  intros Hv Hx.
  destruct (leb_finite_pos _ _ _ Hx) as [->|(m & e & -> & He)].
  { exists Lt. split; [reflexivity | discriminate]. }
  destruct (valid_normal _ _ _ Hv ltac:(lia)) as [Hm _].
  change (2 ^ 52) with 4503599627370496 in Hm.
  change (2 ^ 53) with 9007199254740992 in Hm.
  unfold mul, SFmul. cbn [xorb].
  set (M := (m * 5629499534213120)%positive).
  assert (Zpos M = Zpos m * 5629499534213120) as HM by (unfold M; lia).
  clearbody M.
  assert (exists d, Zpos (digits2_pos M) = d /\ (d = 105 \/ d = 106) /\
                    (d = 105 -> Zpos M < 2 ^ 105)) as (d & Hd & Hd' & Hd'').
  { destruct (Z_lt_le_dec (Zpos M) (2 ^ 105)) as [Hlt|Hge].
    - exists 105. split; [|split; [auto | auto]].
      apply digits2_pos_unique. split; [|exact Hlt].
      change (2 ^ (105 - 1)) with 20282409603651670423947251286016. lia.
    - exists 106. split; [|split; [auto | lia]].
      apply digits2_pos_unique. split; [exact Hge|].
      change (2 ^ 106) with 81129638414606681695789005144064. lia. }
  destruct (binary_round_aux_normal M (e + -50) d Hd ltac:(lia) ltac:(lia))
    as [-> | (m2 & e2 & -> & Hm2 & Hcase)].
  { exists Lt. split; [reflexivity | discriminate]. }
  change (2 ^ 52) with 4503599627370496 in Hm2.
  change (2 ^ 53) with 9007199254740992 in Hm2.
  unfold compare_Z.
  destruct (Z.leb_spec 0 e2) as [Hpos|Hneg].
  - eexists. split; [reflexivity|].
    apply Z.compare_le_iff.
    assert (1 <= 2 ^ e2) by (apply (Z.pow_le_mono_r 2 0 e2); lia).
    nia.
  - eexists. split; [reflexivity|].
    apply Z.compare_le_iff.
    destruct (Z.eq_dec e2 (-48)) as [->|Hne].
    + assert (e = -50 /\ d = 105) as [-> ->] by lia.
      destruct Hcase as [[_ Hq]|]; [|lia].
      change (2 ^ (105 - 53)) with 4503599627370496 in Hq.
      change (2 ^ (- (-48))) with 281474976710656.
      assert (8444249301319680 <= Zpos M / 4503599627370496)
        by (apply Z.div_le_lower_bound; lia).
      lia.
    + assert (2 ^ (- e2) <= 2 ^ 47) by (apply Z.pow_le_mono_r; lia).
      change (2 ^ 47) with 140737488355328 in *. lia.
Qed.

(** ** No overflow on small operands *)

Lemma fexp_64 (x : Z) : fexp prec emax x = Z.max (x - 53) (-1074).
Proof. reflexivity. Qed.

Lemma Zdigits2_le (m k : Z) : 0 <= m < 2 ^ k -> 0 <= k -> Zdigits2 m <= k.
Proof.
  intros [Hlo Hhi] Hk. destruct m as [|p|p]; [exact Hk| |lia].
  cbn [Zdigits2]. pose proof (digits2_pos_bounds p) as [D _].
  destruct (Z_lt_le_dec k (Zpos (digits2_pos p))) as [Hlt|]; [|assumption].
  assert (2 ^ k <= 2 ^ (Zpos (digits2_pos p) - 1)) by (apply Z.pow_le_mono_r; lia).
  lia.
Qed.

Lemma shr_spec (r r' : shr_record) (e e' n : Z) :
  0 <= shr_m r -> shr r e n = (r', e') ->
  e' = e + Z.max n 0 /\ shr_m r' = shr_m r / 2 ^ Z.max n 0.
Proof.
  intros Hr. unfold shr. destruct n as [|p|p]; intros [= <- <-].
  - cbn. rewrite Z.div_1_r. lia.
  - rewrite shr_m_iter by assumption.
    replace (Z.max (Zpos p) 0) with (Zpos p) by lia. split; reflexivity.
  - replace (Z.max (Zneg p) 0) with 0 by lia. cbn. rewrite Z.div_1_r. lia.
Qed.

Lemma shr_record_of_loc_m (m : Z) (l : location) : shr_m (shr_record_of_loc m l) = m.
Proof. destruct l as [|[| |]]; reflexivity. Qed.

(** Rounding [mx * 2^ex] to 53 bits gives no infinity while [mx * 2^ex]
    stays below [2^B] for some [B <= 1023]. *)
Lemma binary_round_aux_not_inf (s s' : bool) (mx ex B : Z) (lx : location) :
  0 <= mx < 2 ^ (B - ex) -> ex <= B -> ex <= 971 -> -1074 <= B <= 1023 ->
  binary_round_aux prec emax s mx ex lx <> S754_infinity s'.
Proof.
  intros [Hm0 Hm] HexB Hex HB.
  unfold binary_round_aux, shr_fexp.
  destruct (shr (shr_record_of_loc mx lx) ex _) as [r1 e1] eqn:E1.
  apply shr_spec in E1; [|rewrite shr_record_of_loc_m; exact Hm0].
  rewrite shr_record_of_loc_m, fexp_64 in E1. destruct E1 as [He1 Hr1].
  pose proof (Zdigits2_le mx (B - ex) (conj Hm0 Hm) ltac:(lia)) as Dm.
  set (k1 := Z.max (Z.max (Zdigits2 mx + ex - 53) (-1074) - ex) 0) in *.
  assert (0 <= k1) by lia.
  assert (e1 <= 971 /\ e1 <= B) as [He1' He1B] by lia.
  assert (0 < 2 ^ k1) as Hk1 by (apply Z.pow_pos_nonneg; lia).
  assert (0 <= shr_m r1 < 2 ^ (B - e1)) as Hr1'.
  { rewrite Hr1. split; [apply Z.div_pos; lia|].
    apply Z.div_lt_upper_bound; [exact Hk1|].
    rewrite <- Z.pow_add_r by lia.
    replace (k1 + (B - e1)) with (B - ex) by lia. exact Hm. }
  pose proof (round_nearest_even_bounds (shr_m r1) (loc_of_shr_record r1)) as Hm2.
  set (m2 := round_nearest_even (shr_m r1) (loc_of_shr_record r1)) in *.
  assert (2 ^ (B + 1 - e1) = 2 * 2 ^ (B - e1)) as Hp.
  { replace (B + 1 - e1) with (Z.succ (B - e1)) by lia.
    apply Z.pow_succ_r. lia. }
  pose proof (Zdigits2_le m2 (B + 1 - e1) ltac:(lia) ltac:(lia)) as Dm2.
  destruct (shr (shr_record_of_loc m2 loc_Exact) e1 _) as [r2 e2] eqn:E2.
  apply shr_spec in E2; [|rewrite shr_record_of_loc_m; lia].
  rewrite fexp_64 in E2. destruct E2 as [He2 _].
  destruct (shr_m r2) as [|q|q]; try discriminate.
  destruct (Z.leb_spec e2 (emax - prec)) as [|Hgt]; [discriminate|].
  change (emax - prec) with 971 in Hgt. lia.
Qed.

Lemma iter_xO (d m : positive) : Zpos (Pos.iter xO m d) = Zpos m * 2 ^ Zpos d.
Proof.
  induction d as [|d IH] using Pos.peano_ind.
  - cbn. lia.
  - rewrite Pos.iter_succ, Pos2Z.inj_xO, IH, Pos2Z.inj_succ, Z.pow_succ_r by lia. lia.
Qed.

(** [float(n)] raises only on integers of more than 1023 bits. *)
Lemma int_to_float_ok (n : Z) :
  Z.abs n < 2 ^ 1023 -> int_to_float n = Ok (of_Z n).
Proof.
  intros Hn. unfold int_to_float.
  assert (forall s', of_Z n <> S754_infinity s') as H.
  { intros s'. unfold of_Z, binary_normalize.
    assert (forall s p, Zpos p < 2 ^ 1023 ->
              binary_round prec emax s p 0 <> S754_infinity s') as Hp.
    { intros s p Hlt. unfold binary_round, shl_align.
      pose proof (digits2_pos_bounds p) as [Dlo Dhi].
      assert (Zpos (digits2_pos p) <= 1023) as Dle
        by (apply (Zdigits2_le (Zpos p) 1023); lia).
      rewrite fexp_64.
      destruct (Z.max (Zpos (digits2_pos p) + 0 - 53) (-1074) - 0) as [|d|d] eqn:Ed.
      - apply binary_round_aux_not_inf with (B := Zpos (digits2_pos p)); try lia.
        rewrite Z.sub_0_r. split; [lia | exact Dhi].
      - apply binary_round_aux_not_inf with (B := Zpos (digits2_pos p)); try lia.
        rewrite Z.sub_0_r. split; [lia | exact Dhi].
      - clear Hlt Dlo.
        apply binary_round_aux_not_inf with (B := Zpos (digits2_pos p)); try lia.
        rewrite iter_xO. split; [lia|].
        replace (Zpos (digits2_pos p) -
                 Z.max (Zpos (digits2_pos p) + 0 - 53) (-1074))
          with (Zpos (digits2_pos p) + Zpos d) by lia.
        rewrite Z.pow_add_r by lia.
        assert (0 < 2 ^ Zpos d) by (apply Z.pow_pos_nonneg; lia). nia. }
    destruct n as [|p|p]; [discriminate| apply Hp; lia | apply Hp; lia]. }
  destruct (of_Z n) as [| s' | |]; try reflexivity. now destruct (H s').
Qed.

(** [a / b] on integers raises [OverflowError] only when [a] has more than
    1023 bits. *)
Lemma of_ratio_not_inf (a b : Z) (s' : bool) :
  Z.abs a < 2 ^ 1023 -> of_ratio a b <> S754_infinity s'.
Proof.
  intros Ha.
  assert (forall sa sb p q, Zpos p < 2 ^ 1023 ->
            div (S754_finite sa p 0) (S754_finite sb q 0) <> S754_infinity s') as H.
  { intros sa sb p q Hp. unfold div, SFdiv, SFdiv_core_binary.
    cbn [Zdigits2]. rewrite fexp_64.
    set (d1 := Zpos (digits2_pos p)). set (d2 := Zpos (digits2_pos q)).
    set (e' := Z.min (Z.max (d1 + 0 - (d2 + 0) - 53) (-1074)) (0 - 0)).
    pose proof (digits2_pos_bounds p) as [_ Dhi]. fold d1 in Dhi.
    assert (d1 <= 1023) as Dle by (apply (Zdigits2_le (Zpos p) 1023); lia).
    assert (0 < d1) by (unfold d1; lia).
    set (m' := match 0 - 0 - e' with
               | 0 => Zpos p
               | Zpos _ => Z.shiftl (Zpos p) (0 - 0 - e')
               | Zneg _ => 0
               end).
    assert (0 <= m' < 2 ^ (d1 - e')) as Hm'.
    { unfold m'. destruct (0 - 0 - e') as [|k|k] eqn:Ek.
      - replace (d1 - e') with d1 by lia. lia.
      - rewrite Z.shiftl_mul_pow2 by lia.
        replace (d1 - e') with (d1 + Zpos k) by lia.
        rewrite Z.pow_add_r by lia.
        assert (0 < 2 ^ Zpos k) by (apply Z.pow_pos_nonneg; lia). nia.
      - split; [lia|]. apply Z.pow_pos_nonneg; lia. }
    pose proof (Z_div_mod m' (Zpos q) ltac:(lia)) as Hdiv.
    destruct (Z.div_eucl m' (Zpos q)) as [qq rr]. destruct Hdiv as [Hq Hr].
    apply binary_round_aux_not_inf with (B := d1); try lia.
    assert (0 <= qq) by nia. split; [assumption|]. nia. }
  unfold of_ratio.
  destruct a as [|p|p], b as [|q|q]; try discriminate; apply H; lia.
Qed.

Lemma py_truediv_int_ok (a b : Z) :
  Z.abs a < 2 ^ 1023 -> b <> 0 ->
  py_truediv (PyInt a) (PyInt b) = Ok (of_ratio a b).
Proof.
  intros Ha Hb. unfold py_truediv.
  destruct (Z.eqb_spec b 0) as [|_]; [contradiction|].
  pose proof (of_ratio_not_inf a b) as H.
  destruct (of_ratio a b) as [| s' | |]; try reflexivity. now destruct (H s' Ha).
Qed.

(** ** The two-decimal floats of the cost per click *)

Lemma cents_in_store_range (k : Z) :
  50 <= k <= 1500 ->
  valid (of_decimal k 2) = true /\
  leb cpc_min (of_decimal k 2) = true /\
  leb (of_decimal k 2) store_cpc_max = true.
Proof.
  intros Hk.
  assert (forallb (fun k => valid (of_decimal k 2) && leb cpc_min (of_decimal k 2)
                            && leb (of_decimal k 2) store_cpc_max)
                  (map Z.of_nat (seq 50 1451)) = true) as H
    by (vm_compute; reflexivity).
  pose proof (forallb_range _ _ _ H k ltac:(lia)) as Hk'. cbv beta in Hk'.
  apply andb_true_iff in Hk'. destruct Hk' as [Hk' H3].
  apply andb_true_iff in Hk'. destruct Hk' as [H1 H2]. auto.
Qed.

Lemma cents_in_new_range (k : Z) :
  50 <= k <= 1000 -> leb (of_decimal k 2) new_cpc_max = true.
Proof.
  intros Hk.
  assert (forallb (fun k => leb (of_decimal k 2) new_cpc_max)
                  (map Z.of_nat (seq 50 951)) = true) as H
    by (vm_compute; reflexivity).
  exact (forallb_range _ _ _ H k ltac:(lia)).
Qed.

(** [round(u, 2)] of a draw between 0.5 and 15.0. *)
Lemma round_store_cpc (u : float64) :
  valid u = true -> leb cpc_min u = true -> leb u store_cpc_max = true ->
  two_decimals_between 50 1500 (round u 2) /\
  valid (round u 2) = true /\
  leb cpc_min (round u 2) = true /\
  leb (round u 2) store_cpc_max = true.
Proof.
  intros V L U.
  destruct (round_2_between u 8444249301319680 1500 V L U) as (k & Hk & E);
    [cbn; lia | lia |].
  rewrite E. split; [now exists k|]. now apply cents_in_store_range.
Qed.

(** [round(u, 2)] of a draw between 0.5 and 10.0. *)
Lemma round_new_cpc (u : float64) :
  valid u = true -> leb cpc_min u = true -> leb u new_cpc_max = true ->
  two_decimals_between 50 1000 (round u 2) /\
  valid (round u 2) = true /\
  leb cpc_min (round u 2) = true /\
  leb (round u 2) new_cpc_max = true.
Proof.
  intros V L U.
  destruct (round_2_between u 5629499534213120 1000 V L U) as (k & Hk & E);
    [cbn; lia | lia |].
  rewrite E. split; [now exists k|].
  destruct (cents_in_store_range k ltac:(lia)) as (H1 & H2 & _).
  split; [exact H1|]. split; [exact H2|]. now apply cents_in_new_range.
Qed.

(** ** The opportunity score *)

Lemma py_mul_float_5 (c : float64) :
  py_mul (PyFloat c) (PyInt 5) =
  Ok (PyFloat (mul c (S754_finite false 5629499534213120 (-50)))).
Proof. reflexivity. Qed.

Lemma volume_score_ok (kw : keyword_record) :
  Z.abs (search_volume kw) < 2 ^ 1023 ->
  volume_score kw =
  Ok (py_min (PyFloat (of_ratio (search_volume kw) 1000)) (PyInt 50)).
Proof.
  intros H. unfold volume_score.
  rewrite py_truediv_int_ok by (assumption || discriminate). reflexivity.
Qed.

Lemma py_min_cases (a b : pynum) : py_min a b = a \/ py_min a b = b.
Proof. unfold py_min. destruct (py_lt b a); auto. Qed.

Lemma py_min_not_above (a b : pynum) :
  py_lt b b = false -> py_lt b (py_min a b) = false.
Proof.
  intros Hb. unfold py_min. destruct (py_lt b a) eqn:E; assumption.
Qed.

(** The score is defined whenever its two integers fit a float. *)
Lemma calculate_opportunity_score_ok (kw : keyword_record) :
  Z.abs (search_volume kw) < 2 ^ 1023 ->
  Z.abs (difficulty kw) < 2 ^ 1000 ->
  exists s, calculate_opportunity_score kw = Ok s.
Proof.
  intros Hv Hd. unfold calculate_opportunity_score.
  rewrite (volume_score_ok kw Hv). cbn [rbind].
  unfold cpc_score. rewrite py_mul_float_5. cbn [rbind].
  unfold difficulty_score.
  assert (2 ^ 1000 + 1000 < 2 ^ 1023) as Hbig by (vm_compute; reflexivity).
  set (P := 2 ^ 1023) in *. set (Q := 2 ^ 1000) in *.
  assert (forall n, Z.abs n < P -> int_to_float n = Ok (of_Z n)) as Hint
    by (intros n Hn; apply int_to_float_ok; exact Hn).
  assert (forall x, exists s,
             (mean <- py_truediv (PyFloat x) (PyInt 3) ;; Ok (round mean 1)) = Ok s) as Hdivf.
  { intros x. eexists. reflexivity. }
  assert (forall n, Z.abs n < P -> exists s,
             (mean <- py_truediv (PyInt n) (PyInt 3) ;; Ok (round mean 1)) = Ok s) as Hdivi.
  { intros n Hn. rewrite py_truediv_int_ok by (assumption || discriminate).
    eexists. reflexivity. }
  destruct (py_min_cases (PyFloat (of_ratio (search_volume kw) 1000)) (PyInt 50)) as [-> | ->];
    destruct (py_min_cases
                (PyFloat (mul (cpc kw) (S754_finite false 5629499534213120 (-50))))
                (PyInt 30)) as [-> | ->];
    unfold py_add, as_float; cbn [rbind];
    repeat (rewrite Hint by lia; cbn [rbind]);
    first [apply Hdivf | apply Hdivi; lia].
Qed.

(** ** The stable descending sort *)

Section SortDescFacts.
Context {A : Type} (key : A -> Z).

Lemma insert_desc_perm (x : A) (l : list A) :
  Permutation (insert_desc key x l) (x :: l).
Proof.
  induction l as [|y l IH]; cbn [insert_desc]; [reflexivity|].
  destruct (key y <=? key x); [reflexivity|].
  rewrite IH. apply perm_swap.
Qed.

Lemma sort_desc_perm (l : list A) : Permutation (sort_desc key l) l.
Proof.
  induction l as [|x l IH]; cbn [sort_desc fold_right]; [reflexivity|].
  fold (sort_desc key l). rewrite insert_desc_perm. now constructor.
Qed.

Lemma insert_desc_sorted (x : A) (l : list A) :
  StronglySorted (desc key) l -> StronglySorted (desc key) (insert_desc key x l).
Proof.
  induction 1 as [|y l Hl IH Hy]; cbn [insert_desc].
  - repeat constructor.
  - destruct (Z.leb_spec (key y) (key x)) as [Hle|Hgt].
    + constructor; [now constructor|].
      constructor; [exact Hle|].
      eapply Forall_impl; [|exact Hy]. unfold desc. intros; lia.
    + constructor; [exact IH|].
      apply (Permutation_Forall (Permutation_sym (insert_desc_perm x l))).
      constructor; [unfold desc; lia | exact Hy].
Qed.

Lemma sort_desc_sorted (l : list A) : StronglySorted (desc key) (sort_desc key l).
Proof.
  induction l as [|x l IH]; cbn [sort_desc fold_right]; [constructor|].
  now apply insert_desc_sorted.
Qed.

(** Stability: the records of any one key come out in the order they went
    in. *)
Lemma insert_desc_stable (v : Z) (x : A) (l : list A) :
  filter (fun y => key y =? v) (insert_desc key x l) =
  filter (fun y => key y =? v) (x :: l).
Proof.
  induction l as [|y l IH]; cbn [insert_desc]; [reflexivity|].
  destruct (Z.leb_spec (key y) (key x)) as [Hle|Hgt]; [reflexivity|].
  cbn [filter] in *. rewrite IH.
  destruct (Z.eqb_spec (key y) v), (Z.eqb_spec (key x) v);
    try reflexivity. lia.
Qed.

Lemma sort_desc_stable (v : Z) (l : list A) :
  filter (fun y => key y =? v) (sort_desc key l) =
  filter (fun y => key y =? v) l.
Proof.
  induction l as [|x l IH]; cbn [sort_desc fold_right]; [reflexivity|].
  fold (sort_desc key l). rewrite insert_desc_stable.
  cbn [filter]. now rewrite IH.
Qed.

Lemma head_of_key_filter (x : A) (l l' : list A) :
  filter (fun y => key y =? key x) (x :: l) = filter (fun y => key y =? key x) l' ->
  In x l'.
Proof.
  cbn [filter]. rewrite Z.eqb_refl. intros H.
  apply (proj1 (filter_In (fun y => key y =? key x) x l')).
  rewrite <- H. now left.
Qed.

(** A sorted list is determined by its records of each key, in order: the
    stable sort has no other possible result. *)
Lemma sorted_stable_unique (l1 l2 : list A) :
  StronglySorted (desc key) l1 -> StronglySorted (desc key) l2 ->
  (forall v, filter (fun y => key y =? v) l1 = filter (fun y => key y =? v) l2) ->
  l1 = l2.
Proof.
  intros S1. revert l2.
  induction S1 as [|x l1 S1 IH Hx]; intros l2 S2 H.
  - destruct l2 as [|y l2]; [reflexivity|].
    specialize (H (key y)). cbn [filter] in H.
    rewrite Z.eqb_refl in H. discriminate.
  - destruct S2 as [|y l2 S2 Hy].
    + specialize (H (key x)). cbn [filter] in H.
      rewrite Z.eqb_refl in H. discriminate.
    + assert (key x = key y) as E.
      { pose proof (head_of_key_filter x l1 (y :: l2) (H (key x))) as Ix.
        pose proof (head_of_key_filter y l2 (x :: l1) (eq_sym (H (key y)))) as Iy.
        rewrite Forall_forall in Hx, Hy. unfold desc in Hx, Hy.
        destruct Ix as [<-|Ix]; [reflexivity|].
        destruct Iy as [<-|Iy]; [reflexivity|].
        specialize (Hx _ Iy). specialize (Hy _ Ix). lia. }
      assert (x = y) as <-.
      { specialize (H (key x)). cbn [filter] in H.
        rewrite <- E, Z.eqb_refl in H. congruence. }
      f_equal. apply IH; [exact S2|].
      intros v. specialize (H v). cbn [filter] in H.
      destruct (key x =? v); congruence.
Qed.

Lemma sort_desc_unique (l l' : list A) :
  StronglySorted (desc key) l' ->
  (forall v, filter (fun y => key y =? v) l' = filter (fun y => key y =? v) l) ->
  l' = sort_desc key l.
Proof.
  intros S H. apply sorted_stable_unique; [exact S | apply sort_desc_sorted|].
  intros v. now rewrite sort_desc_stable.
Qed.
End SortDescFacts.

(** ** Lists *)

Lemma fold_left_select {A : Type} (f : A -> bool) (l acc : list A) :
  fold_left (fun acc x => if f x then acc ++ [x] else acc) l acc = acc ++ filter f l.
Proof.
  revert acc. induction l as [|x l IH]; intros acc; cbn [fold_left filter].
  - now rewrite app_nil_r.
  - rewrite IH. destruct (f x); [|reflexivity].
    now rewrite <- app_assoc.
Qed.

Lemma slice_to_nonneg {A : Type} (l : list A) (stop : Z) :
  0 <= stop -> slice_to l stop = firstn (Z.to_nat stop) l.
Proof.
  intros H. unfold slice_to. destruct (Z.leb_spec 0 stop); [reflexivity | lia].
Qed.


Lemma in_firstn {A : Type} (n : nat) (l : list A) (x : A) :
  In x (firstn n l) -> In x l.
Proof.
  intros H. rewrite <- (firstn_skipn n l). apply in_or_app. now left.
Qed.


(** ** Strings *)

Lemma prefix_spec (sub s : string) :
  prefix sub s = true <-> exists post, s = (sub ++ post)%string.
Proof.
  revert s. induction sub as [|a sub IH]; intros s.
  - split; [intros _; now exists s | intros _; destruct s; reflexivity].
  - destruct s as [|b s]; cbn [prefix].
    + split; [discriminate | intros [post H]; discriminate].
    + destruct (ascii_dec a b) as [<-|Hne].
      * rewrite IH. split; intros [post H]; exists post.
        -- cbn. now rewrite H.
        -- cbn in H. now injection H.
      * split; [discriminate|]. intros [post H]. cbn in H. congruence.
Qed.

(** [sub in s] holds exactly when [s] is [sub] with something before and
    something after. *)
Lemma contains_spec (sub s : string) :
  PyStr.contains sub s = true <->
  exists pre post, s = (pre ++ sub ++ post)%string.
Proof.
  induction s as [|c s IH]; cbn [PyStr.contains].
  - rewrite orb_false_r, prefix_spec. split.
    + intros [post H]. now exists EmptyString, post.
    + intros (pre & post & H). destruct pre as [|? ?]; [|discriminate].
      now exists post.
  - rewrite orb_true_iff, prefix_spec, IH. split.
    + intros [[post H] | (pre & post & H)].
      * now exists EmptyString, post.
      * exists (String c pre), post. cbn. now rewrite H.
    + intros (pre & post & H). destruct pre as [|a pre].
      * left. now exists post.
      * right. cbn in H. injection H as _ H. now exists pre, post.
Qed.

Lemma contains_empty (s : string) : PyStr.contains EmptyString s = true.
Proof. destruct s; reflexivity. Qed.

Lemma lower_length (s : string) : String.length (PyStr.lower s) = String.length s.
Proof. induction s; cbn; congruence. Qed.

Lemma string_app_assoc (a b c : string) :
  ((a ++ b) ++ c = a ++ (b ++ c))%string.
Proof. induction a; cbn; congruence. Qed.




Lemma title_char_head (flag : bool) (c : ascii) :
  PyStr.title_char flag c =
  if PyStr.is_lower c then (if flag then c else PyStr.to_upper c)
  else if PyStr.is_upper c then (if flag then PyStr.to_lower c else c)
  else c.
Proof.
  unfold PyStr.title_char, PyStr.is_cased.
  destruct (PyStr.is_lower c) eqn:L; cbn [orb].
  - assert (PyStr.is_upper c = false) as U.
    { revert L. unfold PyStr.is_lower, PyStr.is_upper. intros H.
      apply andb_true_iff in H. destruct H as [H _]. apply Nat.leb_le in H.
      apply andb_false_iff. right. apply Nat.leb_gt. lia. }
    unfold PyStr.to_lower. now rewrite U.
  - destruct (PyStr.is_upper c) eqn:U; [|reflexivity].
    unfold PyStr.to_upper. now rewrite L.
Qed.



(** ** The state monad: what leaves the store alone *)

Create HintDb frame.

Section Frame.
Context {G : Type} {R : Random G}.

Lemma preserves_ret {A : Type} (a : A) : preserves_database (ret (G := G) a).
Proof. intros w. reflexivity. Qed.

Lemma preserves_raise {A : Type} (e : exn) : preserves_database (raise (G := G) (A := A) e).
Proof. intros w. reflexivity. Qed.

Lemma preserves_lift_result {A : Type} (r : result A) :
  preserves_database (lift_result (G := G) r).
Proof. intros w. reflexivity. Qed.

Lemma preserves_read_database : preserves_database (read_database (G := G)).
Proof. intros w. reflexivity. Qed.

Lemma preserves_draw {A : Type} (f : G -> A * G) : preserves_database (draw f).
Proof. intros w. unfold draw. destruct (f (rng w)). reflexivity. Qed.

Lemma preserves_bind {A B : Type} (m : M G A) (k : A -> M G B) :
  preserves_database m -> (forall a, preserves_database (k a)) ->
  preserves_database (bind m k).
Proof.
  intros Hm Hk w. unfold bind. specialize (Hm w).
  destruct (m w) as [[a|e] w']; cbn [snd] in *.
  - now rewrite Hk.
  - exact Hm.
Qed.

Lemma preserves_for_each {A B : Type} (l : list A) (body : B -> A -> M G B) (acc : B) :
  (forall acc x, preserves_database (body acc x)) ->
  preserves_database (for_each l body acc).
Proof.
  intros Hbody. revert acc.
  induction l as [|x l IH]; intros acc; cbn [for_each].
  - apply preserves_ret.
  - apply preserves_bind; [apply Hbody | exact IH].
Qed.

Hint Resolve preserves_ret preserves_raise preserves_lift_result
  preserves_read_database preserves_draw : frame.

Ltac frame :=
  repeat first
    [ progress auto with frame
    | apply preserves_bind; [|intros ?]
    | apply preserves_for_each; intros ? ?
    | match goal with
      | |- preserves_database (match ?x with _ => _ end) => destruct x
      | |- preserves_database (if ?x then _ else _) => destruct x
      end ].

Lemma preserves_choice {A : Type} (l : list A) : preserves_database (choice l).
Proof. unfold choice. frame. Qed.

Lemma preserves_sample {A : Type} (l : list A) (k : Z) : preserves_database (sample l k).
Proof. unfold sample. frame. Qed.

Hint Resolve preserves_choice preserves_sample : frame.

Lemma preserves_new_record (kw : string) (vmax : Z) (cmax : float64) (cat : string) :
  preserves_database (new_record kw vmax cmax cat).
Proof. unfold new_record. frame. Qed.

Hint Resolve preserves_new_record : frame.

Lemma preserves_generate_mock_keywords : preserves_database generate_mock_keywords.
Proof. unfold generate_mock_keywords. frame. Qed.

Lemma preserves_search_keywords (seed : string) (limit : Z) :
  preserves_database (search_keywords (G := G) seed limit).
Proof. unfold search_keywords. frame. Qed.

Lemma preserves_get_related_keywords (kw : string) :
  preserves_database (get_related_keywords (G := G) kw).
Proof. unfold get_related_keywords. frame. Qed.

Lemma preserves_generate_seasonal_data : preserves_database generate_seasonal_data.
Proof. unfold generate_seasonal_data. frame. Qed.

Lemma preserves_get_serp_features : preserves_database get_serp_features.
Proof. unfold get_serp_features. frame. Qed.

Hint Resolve preserves_search_keywords preserves_get_related_keywords
  preserves_generate_seasonal_data preserves_get_serp_features : frame.

Lemma preserves_analyze_keyword (kw : string) :
  preserves_database (analyze_keyword kw).
Proof. unfold analyze_keyword. frame. Qed.

Hint Resolve preserves_analyze_keyword : frame.

Lemma preserves_search_route (data : json) : preserves_database (search_route (G := G) data).
Proof. unfold search_route. frame. Qed.

Lemma preserves_analyze_route (data : json) : preserves_database (analyze_route data).
Proof. unfold analyze_route. frame. Qed.

End Frame.

(** ** The linear congruential generator keeps the contract of [random] *)

Lemma take_nth_perm (j : nat) (pool : list nat) :
  (j < List.length pool)%nat ->
  exists x rest, Lcg.take_nth j pool = Some (x, rest) /\ Permutation pool (x :: rest).
Proof.
  revert j. induction pool as [|y pool IH]; intros j Hj; [cbn in Hj; lia|].
  destruct j as [|j]; cbn [Lcg.take_nth].
  - exists y, pool. split; reflexivity.
  - destruct (IH j) as (x & rest & -> & P); [cbn in Hj; lia|].
    exists x, (y :: rest). split; [reflexivity|].
    rewrite P. apply perm_swap.
Qed.

Lemma lcg_sample_from_spec (k : nat) (pool : list nat) (g : Z) :
  (k <= List.length pool)%nat -> NoDup pool ->
  List.length (fst (Lcg.lcg_sample_from pool k g)) = k /\
  NoDup (fst (Lcg.lcg_sample_from pool k g)) /\
  incl (fst (Lcg.lcg_sample_from pool k g)) pool.
Proof.
  revert pool g. induction k as [|k IH]; intros pool g Hk Hp; cbn [Lcg.lcg_sample_from].
  - cbn. repeat split; [constructor | intros x []].
  - unfold Lcg.lcg_randbelow.
    assert (0 < Z.of_nat (List.length pool)) as Hlen by lia.
    pose proof (Z.mod_pos_bound (Lcg.draw g) _ Hlen) as Hj.
    destruct (take_nth_perm (Z.to_nat (Lcg.draw g mod Z.of_nat (List.length pool))) pool)
      as (x & rest & -> & P); [lia|].
    pose proof (Permutation_NoDup P Hp) as Hxr.
    pose proof (Permutation_length P) as Hl. cbn [List.length] in Hl.
    inversion Hxr as [|? ? Hx Hrest]; subst.
    destruct (IH rest (Lcg.next g) ltac:(lia) Hrest) as (L & N & I).
    destruct (Lcg.lcg_sample_from rest k (Lcg.next g)) as [l g'']. cbn [fst] in *.
    split; [cbn; lia|]. split.
    + constructor; [|exact N]. intros Hin. apply Hx. now apply I.
    + intros y [<-|Hy].
      * apply (Permutation_in _ (Permutation_sym P)). now left.
      * apply (Permutation_in _ (Permutation_sym P)). right. now apply I.
Qed.

Lemma lcg_laws : RandomLaws Lcg.lcg_random.
Proof.
  constructor.
  - intros a b g Hab. cbn.
    pose proof (Z.mod_pos_bound (Lcg.draw g) (b - a + 1) ltac:(lia)). lia.
  - intros a b g Va Vb Hab. cbn.
    destruct (valid _ && leb a _ && leb _ b) eqn:C.
    + apply andb_true_iff in C. destruct C as [C C3].
      apply andb_true_iff in C. destruct C as [C1 C2]. auto.
    + split; [exact Va|]. split; [exact (leb_refl a b Hab) | exact Hab].
  - intros n g Hn. cbn.
    pose proof (Z.mod_pos_bound (Lcg.draw g) (Z.of_nat n) ltac:(lia)). lia.
  - intros n k g Hk. cbn. unfold Lcg.lcg_sample_indices.
    destruct (lcg_sample_from_spec k (seq 0 n) g) as (L & N & I).
    + now rewrite length_seq.
    + apply seq_NoDup.
    + split; [exact L|]. split; [exact N|].
      apply Forall_forall. intros i Hi. apply I, in_seq in Hi. lia.
Qed.

(** ** What the methods return, for a generator that keeps the contract *)

Lemma Forall2_singletons {A B : Type} (T : A -> B -> Prop) (l : list A) (yss : list (list B)) :
  Forall2 (fun x ys => exists y, ys = [y] /\ T x y) l yss ->
  Forall2 T l (List.concat yss).
Proof.
  induction 1 as [|x ys l yss (y & -> & Hy) _ IH]; cbn [List.concat]; [constructor|].
  now constructor.
Qed.

Lemma Forall2_concat {A B C : Type} (T : A -> B -> C -> Prop) (f : A -> list B)
      (l : list A) (yss : list (list C)) :
  Forall2 (fun x ys => Forall2 (T x) (f x) ys) l yss ->
  Forall2 (fun p y => T (fst p) (snd p) y)
          (flat_map (fun x => map (pair x) (f x)) l) (List.concat yss).
Proof.
  induction 1 as [|x ys l yss Hx _ IH]; cbn [flat_map List.concat]; [constructor|].
  apply Forall2_app; [|exact IH].
  clear -Hx. induction Hx; cbn [map]; now constructor.
Qed.

Lemma Forall2_in_right {A B : Type} (T : A -> B -> Prop) (l : list A) (l' : list B) (y : B) :
  Forall2 T l l' -> In y l' -> exists x, In x l /\ T x y.
Proof.
  induction 1 as [|x y' l l' Hxy _ IH]; intros Hy; [destruct Hy|].
  destruct Hy as [<-|Hy].
  - exists x. split; [now left | exact Hxy].
  - destruct (IH Hy) as (x' & Hx' & Hxy'). exists x'. split; [now right | exact Hxy'].
Qed.

Lemma Forall2_map_eq {A B C : Type} (T : A -> B -> Prop) (g : B -> C) (h : A -> C)
      (l : list A) (l' : list B) :
  Forall2 T l l' -> (forall x y, T x y -> g y = h x) -> map g l' = map h l.
Proof.
  intros F H. induction F as [|x y l l' Hxy _ IH]; cbn [map]; [reflexivity|].
  now rewrite IH, (H x y Hxy).
Qed.

Lemma picks_NoDup {A : Type} (population : list A) (idx : list nat) (res : list A) :
  NoDup population -> NoDup idx ->
  Forall2 (fun i x => nth_error population i = Some x) idx res ->
  NoDup res.
Proof.
  intros Hp Hi F. induction F as [|i x idx res Hix F IH]; [constructor|].
  inversion Hi as [|? ? Hni Hi']; subst.
  constructor; [|exact (IH Hi')].
  intros Hx. destruct (Forall2_in_right _ _ _ _ F Hx) as (j & Hj & Hjx).
  apply Hni. replace i with j; [exact Hj|].
  symmetry. apply (proj1 (NoDup_nth_error population) Hp).
  - apply nth_error_Some. now rewrite Hix.
  - now rewrite Hix, Hjx.
Qed.

Section Specs.
Context {G : Type} {R : Random G} {L : RandomLaws R}.

Lemma bind_ok {A B : Type} (m : M G A) (k : A -> M G B) (w w1 : world G) (a : A) :
  m w = (Ok a, w1) -> bind m k w = k a w1.
Proof. intros E. unfold bind. now rewrite E. Qed.

Lemma bind_draw {A B : Type} (f : G -> A * G) (k : A -> M G B) (w : world G) :
  bind (draw f) k w =
  k (fst (f (rng w)))
    {| keyword_database := keyword_database w; rng := snd (f (rng w)) |}.
Proof. unfold bind, draw. now destruct (f (rng w)). Qed.

(** A loop whose body appends to the accumulator, and succeeds on every
    element that satisfies [P], appends what the bodies append, in
    order. *)
Lemma for_each_append {A B : Type} (P : A -> Prop) (Q : A -> list B -> Prop)
      (body : list B -> A -> M G (list B)) :
  (forall acc x w, P x -> exists ys w', body acc x w = (Ok (acc ++ ys), w') /\ Q x ys) ->
  forall l acc w, Forall P l ->
    exists yss w', for_each l body acc w = (Ok (acc ++ List.concat yss), w') /\ Forall2 Q l yss.
Proof.
  intros Hbody. induction l as [|x l IH]; intros acc w Hl; cbn [for_each].
  - exists [], w. cbn. rewrite app_nil_r. split; [reflexivity | constructor].
  - inversion Hl as [|? ? Hx Hl']; subst.
    destruct (Hbody acc x w Hx) as (ys & w1 & E & Qx).
    rewrite (bind_ok _ _ _ _ _ E).
    destruct (IH (acc ++ ys) w1 Hl') as (yss & w2 & E2 & F).
    exists (ys :: yss), w2. cbn [List.concat]. rewrite app_assoc.
    split; [exact E2 | now constructor].
Qed.

Lemma choice_spec {A : Type} (seq : list A) (w : world G) :
  seq <> [] -> exists x w', choice seq w = (Ok x, w') /\ In x seq.
Proof.
  intros Hne. destruct seq as [|a seq]; [contradiction|].
  unfold choice. rewrite bind_draw.
  pose proof (randbelow_range (List.length (a :: seq)) (rng w) ltac:(cbn; lia)) as Hi.
  destruct (nth_error (a :: seq) _) as [x|] eqn:E.
  - eexists x, _. split; [reflexivity|]. exact (nth_error_In _ _ E).
  - apply nth_error_None in E. lia.
Qed.

Lemma sample_spec {A : Type} (population : list A) (k : Z) (w : world G) :
  0 <= k <= Z.of_nat (List.length population) -> NoDup population ->
  exists l w',
    sample population k w = (Ok l, w') /\
    List.length l = Z.to_nat k /\ NoDup l /\ incl l population.
Proof.
  intros Hk Hp. unfold sample.
  destruct (Z.ltb_spec k 0) as [|_]; [lia|].
  destruct (Z.ltb_spec (Z.of_nat (List.length population)) k) as [|_]; [lia|].
  cbn [orb]. rewrite bind_draw.
  destruct (sample_indices_spec (List.length population) (Z.to_nat k) (rng w)
                                ltac:(lia)) as (Hlen & Hnd & Hlt).
  set (idx := fst (sample_indices _ _ _)) in *.
  destruct (for_each_append
              (fun i => (i < List.length population)%nat)
              (fun i ys => exists x, ys = [x] /\ nth_error population i = Some x)
              (fun acc i =>
                 match nth_error population i with
                 | Some x => ret (acc ++ [x])
                 | None => raise IndexError
                 end)) with (l := idx) (acc := @nil A)
      (w := {| keyword_database := keyword_database w;
               rng := snd (sample_indices (List.length population) (Z.to_nat k) (rng w)) |})
    as (yss & w' & E & F).
  - intros acc i w0 Hi.
    destruct (nth_error population i) as [x|] eqn:Ei.
    + exists [x], w0. split; [reflexivity|]. now exists x.
    + apply nth_error_None in Ei. lia.
  - exact Hlt.
  - apply Forall2_singletons in F.
    exists (List.concat yss), w'. split; [exact E|].
    split; [rewrite <- (Forall2_length F); exact Hlen|].
    split; [exact (picks_NoDup _ _ _ Hp Hnd F)|].
    intros x Hx. destruct (Forall2_in_right _ _ _ _ F Hx) as (i & _ & Hi).
    exact (nth_error_In _ _ Hi).
Qed.

(** The dictionary literal: the fields given and the five draws. *)
Lemma new_record_spec (keyword0 : string) (volume_max : Z) (cmax : float64)
      (category0 : string) (w : world G) :
  100 <= volume_max -> valid cmax = true -> leb cpc_min cmax = true ->
  exists kw w',
    new_record keyword0 volume_max cmax category0 w = (Ok kw, w') /\
    keyword kw = keyword0 /\ category kw = category0 /\
    100 <= search_volume kw <= volume_max /\
    1 <= difficulty kw <= 100 /\
    (exists u, valid u = true /\ leb cpc_min u = true /\ leb u cmax = true /\
               cpc kw = round u 2) /\
    In (competition kw) competitions /\
    In (trend kw) trends.
Proof.
  intros Hv Vc Lc. unfold new_record.
  rewrite !bind_draw. cbn [rng keyword_database].
  match goal with
  | |- context [bind (choice competitions) ?k ?w0] =>
      destruct (choice_spec competitions w0 ltac:(discriminate)) as (c & w1 & Ec & Hc);
      rewrite (bind_ok _ k _ _ _ Ec)
  end.
  match goal with
  | |- context [bind (choice trends) ?k ?w0] =>
      destruct (choice_spec trends w0 ltac:(discriminate)) as (t & w2 & Et & Ht);
      rewrite (bind_ok _ k _ _ _ Et)
  end.
  eexists _, _. split; [reflexivity|]. cbn.
  split; [reflexivity|]. split; [reflexivity|].
  split; [apply randint_range; lia|].
  split; [apply randint_range; lia|].
  split; [|split; assumption].
  eexists. 
  destruct (uniform_range cpc_min cmax
              (snd (randint 1 100 (snd (randint 100 volume_max (rng w)))))
              eq_refl Vc Lc) as (U1 & U2 & U3).
  repeat split; eassumption || reflexivity.
Qed.
End Specs.

Lemma Forall2_Forall_right {A B : Type} (T : A -> B -> Prop) (S : B -> Prop)
      (l : list A) (l' : list B) :
  Forall2 T l l' -> (forall x y, In x l -> T x y -> S y) -> Forall S l'.
Proof.
  induction 1 as [|x y l l' Hxy _ IH]; intros H; constructor.
  - apply (H x y); [now left | exact Hxy].
  - apply IH. intros x' y' Hx'. apply H. now right.
Qed.

Lemma features_NoDup : NoDup features.
Proof.
  unfold features.
  repeat (constructor; [cbn; intuition discriminate|]). constructor.
Qed.

Lemma store_plan_length : List.length store_plan = 160%nat.
Proof. reflexivity. Qed.

Lemma store_plan_keywords (p : string * string) :
  In p store_plan ->
  In (fst p) base_keywords /\ In (snd p) (variations (fst p)) /\ snd p <> "".
Proof.
  intros Hp. unfold store_plan in Hp. apply in_flat_map in Hp.
  destruct Hp as (base & Hb & Hp). apply in_map_iff in Hp.
  destruct Hp as (v & <- & Hv). cbn [fst snd].
  split; [exact Hb|]. split; [exact Hv|].
  cbn in Hv. intros ->.
  repeat (destruct Hv as [Hv|Hv];
          [destruct base; cbn in Hv; discriminate|]).
  exact Hv.
Qed.

Section MethodSpecs.
Context {G : Type} {R : Random G} {L : RandomLaws R}.

Lemma bind_read {B : Type} (k : list keyword_record -> M G B) (w : world G) :
  bind read_database k w = k (keyword_database w) w.
Proof. reflexivity. Qed.

Lemma generate_seasonal_data_spec (w : world G) :
  exists l w',
    generate_seasonal_data w = (Ok l, w') /\
    map fst l = months /\
    Forall (fun p => 70 <= snd p <= 130) l.
Proof.
  unfold generate_seasonal_data.
  destruct (for_each_append
              (fun _ : string => True)
              (fun month ys => exists p : string * Z,
                   ys = [p] /\ fst p = month /\ 70 <= snd p <= 130)
              (fun acc month =>
                 bind (draw (randint 70 130))
                      (fun v => ret (acc ++ [(month, v)]))))
    with (l := months) (acc := @nil (string * Z)) (w := w)
    as (yss & w' & E & F).
  - intros acc month w0 _. rewrite bind_draw.
    eexists [_], _. split; [reflexivity|]. eexists. split; [reflexivity|].
    cbn [fst snd]. split; [reflexivity|]. apply randint_range. lia.
  - apply Forall_forall. intros; exact I.
  - apply Forall2_singletons in F.
    exists (List.concat yss), w'. split; [exact E|]. split.
    + rewrite (Forall2_map_eq _ fst (fun m => m) _ _ F); [apply map_id|].
      now intros m p [Hp _].
    + apply (Forall2_Forall_right _ _ _ _ F). now intros m p _ [_ Hp].
Qed.

Lemma get_serp_features_spec (w : world G) :
  exists l w',
    get_serp_features w = (Ok l, w') /\
    (2 <= List.length l <= 5)%nat /\ NoDup l /\ incl l features.
Proof.
  unfold get_serp_features. rewrite bind_draw.
  pose proof (randint_range 2 5 (rng w) ltac:(lia)) as Hk.
  destruct (sample_spec features (fst (randint 2 5 (rng w)))
              {| keyword_database := keyword_database w;
                 rng := snd (randint 2 5 (rng w)) |})
    as (l & w' & E & Hl & Hnd & Hin).
  - cbn. lia.
  - exact features_NoDup.
  - exists l, w'. split; [exact E|]. split; [lia|]. split; assumption.
Qed.

(** The store: one record per base topic and variation, in order, each
    with its keyword, its category and its draws. *)
Lemma generate_mock_keywords_spec (w : world G) :
  exists db w',
    generate_mock_keywords w = (Ok db, w') /\
    Forall2 (fun p kw =>
               keyword kw = snd p /\
               category kw = PyStr.replace " " "_" (fst p) /\
               drawn_record_ok 50000 1500 store_cpc_max kw)
            store_plan db.
Proof.
  unfold generate_mock_keywords.
  destruct (for_each_append
              (fun _ : string => True)
              (fun base ys =>
                 Forall2 (fun v kw =>
                            keyword kw = v /\
                            category kw = PyStr.replace " " "_" base /\
                            drawn_record_ok 50000 1500 store_cpc_max kw)
                         (variations base) ys)
              (fun keywords base =>
                 for_each (variations base)
                   (fun keywords variation =>
                      bind (new_record variation store_volume_max store_cpc_max
                                       (PyStr.replace " " "_" base))
                           (fun kw => ret (keywords ++ [kw])))
                   keywords))
    with (l := base_keywords) (acc := @nil keyword_record) (w := w)
    as (yss & w' & E & F).
  - intros acc base w0 _.
    destruct (for_each_append
                (fun _ : string => True)
                (fun v ys => exists kw,
                     ys = [kw] /\
                     keyword kw = v /\
                     category kw = PyStr.replace " " "_" base /\
                     drawn_record_ok 50000 1500 store_cpc_max kw)
                (fun keywords variation =>
                   bind (new_record variation store_volume_max store_cpc_max
                                    (PyStr.replace " " "_" base))
                        (fun kw => ret (keywords ++ [kw]))))
      with (l := variations base) (acc := acc) (w := w0)
      as (ys & w1 & E1 & F1).
    + intros acc' v w2 _.
      destruct (new_record_spec v store_volume_max store_cpc_max
                                (PyStr.replace " " "_" base) w2)
        as (kw & w3 & E3 & Hk & Hc & Hv & Hd & (u & Vu & Lu & Uu & Hu) & Hcomp & Htrend);
        [unfold store_volume_max; lia | reflexivity | reflexivity |].
      rewrite (bind_ok _ _ _ _ _ E3).
      exists [kw], w3. split; [reflexivity|]. exists kw. split; [reflexivity|].
      split; [exact Hk|]. split; [exact Hc|].
      destruct (round_store_cpc u Vu Lu Uu) as (D1 & D2 & D3 & D4).
      unfold drawn_record_ok. rewrite Hu. unfold store_volume_max in Hv.
      repeat split; assumption || lia.
    + apply Forall_forall. intros; exact I.
    + exists (List.concat ys), w1. split; [exact E1|].
      exact (Forall2_singletons _ _ _ F1).
  - apply Forall_forall. intros; exact I.
  - exists (List.concat yss), w'. split; [exact E|].
    exact (Forall2_concat
             (fun base v kw =>
                keyword kw = v /\
                category kw = PyStr.replace " " "_" base /\
                drawn_record_ok 50000 1500 store_cpc_max kw)
             variations _ _ F).
Qed.

(** Startup succeeds, and the store it leaves has the 160 planned
    records. *)
Lemma startup_spec (g : G) :
  exists w,
    startup g = (Ok tt, w) /\
    Forall2 (fun p kw =>
               keyword kw = snd p /\
               category kw = PyStr.replace " " "_" (fst p) /\
               drawn_record_ok 50000 1500 store_cpc_max kw)
            store_plan (keyword_database w).
Proof.
  unfold startup, init.
  destruct (generate_mock_keywords_spec {| keyword_database := []; rng := g |})
    as (db & w' & E & F).
  rewrite (bind_ok _ _ _ _ _ E).
  eexists. split; [reflexivity | exact F].
Qed.

Lemma startup_store_ok (g : G) (w : world G) :
  startup g = (Ok tt, w) ->
  List.length (keyword_database w) = 160%nat /\
  Forall store_record_ok (keyword_database w).
Proof.
  intros E. destruct (startup_spec g) as (w0 & E0 & F).
  rewrite E in E0. injection E0 as <-.
  split; [rewrite <- (Forall2_length F); exact store_plan_length|].
  apply (Forall2_Forall_right _ _ _ _ F).
  intros p kw Hp (Hk & Hc & Hd).
  destruct (store_plan_keywords p Hp) as (Hb & Hv & Hne).
  split; [now rewrite Hk|]. split; [exact Hd|].
  exists (fst p). rewrite Hk. auto.
Qed.
End MethodSpecs.

Lemma drawn_record_scored (volume_max cents_max : Z) (cmax : float64) (kw : keyword_record) :
  volume_max <= 50000 -> drawn_record_ok volume_max cents_max cmax kw ->
  exists s, calculate_opportunity_score kw = Ok s.
Proof.
  intros Hmax (Hv & Hd & _).
  assert (50000 < 2 ^ 1000 /\ 2 ^ 1000 < 2 ^ 1023) as [B1 B2]
    by (split; vm_compute; reflexivity).
  apply calculate_opportunity_score_ok;
    set (P := 2 ^ 1023) in *; set (Q := 2 ^ 1000) in *; lia.
Qed.

Section AnalyzeSpec.
Context {G : Type} {R : Random G} {L : RandomLaws R}.

(** [analyze_keyword] field by field.  It returns whenever the record it
    finds in the store, if any, has a score. *)
Lemma analyze_keyword_spec (keyword0 : string) (w : world G) :
  (forall kw, find (same_keyword keyword0) (keyword_database w) = Some kw ->
              exists s, calculate_opportunity_score kw = Ok s) ->
  exists res w',
    analyze_keyword keyword0 w = (Ok res, w') /\
    match find (same_keyword keyword0) (keyword_database w) with
    | Some kw => kw_data res = kw
    | None =>
        keyword (kw_data res) = keyword0 /\
        category (kw_data res) = "general" /\
        drawn_record_ok 10000 1000 new_cpc_max (kw_data res)
    end /\
    calculate_opportunity_score (kw_data res) = Ok (opportunity_score res) /\
    related_keywords res = related_in (keyword_database w) keyword0 /\
    map fst (seasonal_trends res) = months /\
    Forall (fun p => 70 <= snd p <= 130) (seasonal_trends res) /\
    (2 <= List.length (serp_features res) <= 5)%nat /\
    NoDup (serp_features res) /\
    incl (serp_features res) features /\
    content_suggestions res = get_content_suggestions keyword0.
Proof.
  intros Hscore. unfold analyze_keyword. rewrite bind_read.
  assert (exists kw w1,
             match find (same_keyword keyword0) (keyword_database w) with
             | Some kw => ret kw
             | None => new_record keyword0 new_volume_max new_cpc_max "general"
             end w = (Ok kw, w1) /\
             keyword_database w1 = keyword_database w /\
             match find (same_keyword keyword0) (keyword_database w) with
             | Some kw' => kw = kw'
             | None =>
                 keyword kw = keyword0 /\ category kw = "general" /\
                 drawn_record_ok 10000 1000 new_cpc_max kw
             end /\
             exists s, calculate_opportunity_score kw = Ok s)
    as (kw & w1 & E1 & Hdb & Hkw & s & Hs).
  { destruct (find (same_keyword keyword0) (keyword_database w)) as [kw|] eqn:F.
    - exists kw, w. split; [reflexivity|]. split; [reflexivity|].
      split; [reflexivity|]. now apply Hscore.
    - destruct (new_record_spec keyword0 new_volume_max new_cpc_max "general" w)
        as (kw & w1 & E & Hk & Hc & Hv & Hd & (u & Vu & Lu & Uu & Hu) & Hcomp & Htrend);
        [unfold new_volume_max; lia | reflexivity | reflexivity |].
      assert (drawn_record_ok 10000 1000 new_cpc_max kw) as Hok.
      { destruct (round_new_cpc u Vu Lu Uu) as (D1 & D2 & D3 & D4).
        unfold drawn_record_ok. rewrite Hu. unfold new_volume_max in Hv.
        repeat split; assumption || lia. }
      exists kw, w1. split; [exact E|]. split.
      + pose proof (preserves_new_record keyword0 new_volume_max new_cpc_max
                                         "general" w) as P.
        now rewrite E in P.
      + split; [auto|]. apply (drawn_record_scored 10000 1000 new_cpc_max); [lia | exact Hok]. }
  rewrite (bind_ok _ _ _ _ _ E1).
  unfold lift_result at 1. unfold bind at 1. rewrite Hs.
  unfold get_related_keywords. unfold bind at 1. rewrite bind_read. unfold ret at 1.
  destruct (generate_seasonal_data_spec w1) as (seasonal & w2 & E2 & Hm & Hr).
  rewrite (bind_ok _ _ _ _ _ E2).
  destruct (get_serp_features_spec w2) as (serp & w3 & E3 & Hl & Hnd & Hin).
  rewrite (bind_ok _ _ _ _ _ E3).
  eexists _, _. split; [reflexivity|]. cbn.
  rewrite Hdb. repeat split; assumption || lia.
Qed.

(** After startup the analysis returns on every keyword. *)
Lemma store_ok_scored (db : list keyword_record) (keyword0 : string) :
  Forall store_record_ok db ->
  forall kw, find (same_keyword keyword0) db = Some kw ->
             exists s, calculate_opportunity_score kw = Ok s.
Proof.
  intros Hdb kw F. apply find_some in F. destruct F as [Hin _].
  rewrite Forall_forall in Hdb. destruct (Hdb kw Hin) as (_ & Hd & _).
  apply (drawn_record_scored 50000 1500 store_cpc_max); [lia | exact Hd].
Qed.

Lemma search_keywords_run (seed : string) (limit : Z) (w : world G) :
  search_keywords seed limit w = (Ok (search_in (keyword_database w) seed limit), w).
Proof. reflexivity. Qed.
End AnalyzeSpec.

(** ** Searching, on the list of the store *)

Lemma search_in_sorted_filter (db : list keyword_record) (seed : string) (limit : Z) :
  search_in db seed limit =
  slice_to (sort_desc search_volume (filter (matches_seed seed) db)) limit.
Proof. unfold search_in. now rewrite fold_left_select. Qed.

Lemma related_in_sorted_filter (db : list keyword_record) (keyword0 : string) :
  related_in db keyword0 =
  firstn 10 (sort_desc search_volume
               (filter (is_related (PyStr.split keyword0) keyword0) db)).
Proof. unfold related_in. now rewrite fold_left_select. Qed.

Lemma matches_empty_seed (kw : keyword_record) : matches_seed "" kw = true.
Proof. unfold matches_seed. apply contains_empty. Qed.

Lemma filter_all {A : Type} (f : A -> bool) (l : list A) :
  (forall x, f x = true) -> filter f l = l.
Proof.
  intros H. induction l as [|x l IH]; cbn [filter]; [reflexivity|].
  now rewrite H, IH.
Qed.

(** ** ASCII strings *)

Lemma is_ascii_spec (s : string) :
  PyStr.is_ascii s = true <->
  forall i c, String.get i s = Some c -> (nat_of_ascii c < 128)%nat.
Proof.
  induction s as [|a t IH].
  - split; [|reflexivity]. intros _ i c H. destruct i; discriminate H.
  - cbn [PyStr.is_ascii]. rewrite andb_true_iff, Nat.ltb_lt, IH. split.
    + intros [Ha Ht] i c H. destruct i as [|i].
      * cbn in H. injection H as <-. exact Ha.
      * exact (Ht i c H).
    + intros H. split.
      * exact (H 0%nat a eq_refl).
      * intros i c Hi. exact (H (S i) c Hi).
Qed.

Lemma ascii_keywords_spec (db : list keyword_record) :
  ascii_keywords db = true <->
  forall kw, In kw db -> PyStr.is_ascii (keyword kw) = true.
Proof. unfold ascii_keywords. apply forallb_forall. Qed.


Section AsciiStore.
Context {G : Type} {R : Random G} {L : RandomLaws R}.

End AsciiStore.

(** [replace] on one character: the length is kept, and every space, and
    nothing else, becomes an underscore. *)
Lemma replace_length (old new : ascii) (s : string) :
  String.length (PyStr.replace old new s) = String.length s.
Proof. induction s as [|c t IH]; [reflexivity|]. cbn. now rewrite IH. Qed.

Lemma replace_get (old new : ascii) (s : string) (i : nat) :
  String.get i (PyStr.replace old new s) =
  option_map (fun c => if Ascii.eqb c old then new else c) (String.get i s).
Proof.
  revert i. induction s as [|c t IH]; intros i; [reflexivity|].
  destruct i as [|i]; [reflexivity|]. cbn. apply IH.
Qed.

(** * The claims *)

(** C1.  The opportunity score is a function of [search_volume],
    [difficulty] and [cpc] alone, computed as
    [round((volume_score + difficulty_score + cpc_score) / 3, 1)] with
    [volume_score = min(search_volume / 1000, 50)],
    [difficulty_score = 100 - difficulty] and [cpc_score = min(cpc * 5, 30)].
    For 5000, 40 and 3.0 the partial scores are 5.0, 60 and 15.0 and the
    score is 26.7.  The volume score never exceeds 50, whatever the volume
    (and is defined for every volume of up to 1023 bits), and the cpc score
    equals 30 for every float [cpc >= 6.0]. *)
Theorem opportunity_score_spec :
  (forall kw kw',
      search_volume kw = search_volume kw' ->
      difficulty kw = difficulty kw' ->
      cpc kw = cpc kw' ->
      calculate_opportunity_score kw = calculate_opportunity_score kw') /\
  (forall kw,
      calculate_opportunity_score kw =
      (v <- (q <- py_truediv (PyInt (search_volume kw)) (PyInt 1000) ;;
             Ok (py_min (PyFloat q) (PyInt 50))) ;;
       c <- (p <- py_mul (PyFloat (cpc kw)) (PyInt 5) ;;
             Ok (py_min p (PyInt 30))) ;;
       vd <- py_add v (PyInt (100 - difficulty kw)) ;;
       total <- py_add vd c ;;
       mean <- py_truediv total (PyInt 3) ;;
       Ok (round mean 1))) /\
  (let kw := {| keyword := ""; search_volume := 5000; difficulty := 40;
                cpc := of_decimal 30 1; competition := ""; trend := "";
                category := "" |} in
   volume_score kw = Ok (PyFloat (of_decimal 50 1)) /\
   difficulty_score kw = PyInt 60 /\
   cpc_score kw = Ok (PyFloat (of_decimal 150 1)) /\
   calculate_opportunity_score kw = Ok (of_decimal 267 1)) /\
  (forall kw v, volume_score kw = Ok v -> py_lt (PyInt 50) v = false) /\
  (forall kw, Z.abs (search_volume kw) < 2 ^ 1023 -> exists v, volume_score kw = Ok v) /\
  (forall kw,
      valid (cpc kw) = true -> leb (of_decimal 60 1) (cpc kw) = true ->
      exists c, cpc_score kw = Ok c /\ py_eq c (PyInt 30) = true).
Proof.
  split; [|split; [|split; [|split; [|split]]]].
  - intros kw kw' Hv Hd Hc.
    unfold calculate_opportunity_score, volume_score, difficulty_score, cpc_score.
    now rewrite Hv, Hd, Hc.
  - intros kw. reflexivity.
  - cbv zeta. repeat split; vm_compute; reflexivity.
  - intros kw v. unfold volume_score.
    destruct (py_truediv _ _) as [q|e]; cbn [rbind]; [|discriminate].
    intros [= <-]. now apply py_min_not_above.
  - intros kw H. rewrite (volume_score_ok kw H). eexists. reflexivity.
  - intros kw V H. unfold cpc_score. rewrite py_mul_float_5. cbn [rbind].
    eexists. split; [reflexivity|].
    destruct (mul_5_at_least_30 (cpc kw) V H) as (c & E & Hc).
    unfold py_min, py_lt. rewrite E.
    destruct c; [| reflexivity | contradiction].
    unfold py_eq. now rewrite E.
Qed.

Lemma opportunity_score_cap_example :
  exists c,
    cpc_score {| keyword := ""; search_volume := 100; difficulty := 1;
                 cpc := of_decimal 725 2; competition := ""; trend := "";
                 category := "" |} = Ok c /\
    py_eq c (PyInt 30) = true.
Proof.
  apply (proj2 (proj2 (proj2 (proj2 (proj2 opportunity_score_spec)))));
    vm_compute; reflexivity.
Defined.




Section AfterStartup.
Context {G : Type} {R : Random G} {L : RandomLaws R}.

(** On the store built at startup the analysis returns, with the fields
    of [analyze_keyword_spec]. *)
Lemma analyze_started (g g' : G) (keyword0 : string) :
  exists res w',
    analyze_keyword keyword0 (started g g') = (Ok res, w') /\
    related_keywords res = related_in (keyword_database (started g g')) keyword0 /\
    map fst (seasonal_trends res) = months /\
    Forall (fun p => 70 <= snd p <= 130) (seasonal_trends res) /\
    (2 <= List.length (serp_features res) <= 5)%nat /\
    NoDup (serp_features res) /\
    incl (serp_features res) features /\
    content_suggestions res = get_content_suggestions keyword0.
Proof.
  destruct (startup_spec g) as (w & E & _).
  destruct (startup_store_ok g w E) as [_ Hok].
  destruct (analyze_keyword_spec keyword0 (started g g')) as (res & w' & H).
  - apply store_ok_scored. unfold started. rewrite E. exact Hok.
  - exists res, w'. tauto.
Qed.
End AfterStartup.








(** C6.  Startup succeeds and leaves a store of exactly 160 records, one
    for each of the 16 base topics and 10 variations, in order.  Every
    record has a non-empty [keyword], a [search_volume] in [100, 50000], a
    [difficulty] in [1, 100], as [cpc] the float of a two-digit decimal
    between 0.50 and 15.00, a [competition] of Low, Medium, High, a [trend]
    of Rising, Stable, Declining, and as [category] its base topic with the
    spaces replaced by underscores: the 16 categories are "digital_marketing"
    to "entrepreneurship" below, and the replacement keeps the length of a
    string and changes the spaces, and only them, to underscores. *)
Theorem store_spec (G : Type) (R : Random G) (L : RandomLaws R) (g : G) :
  exists w,
    startup g = (Ok tt, w) /\
    List.length (keyword_database w) = 160%nat /\
    List.length base_keywords = 16%nat /\
    (forall base, List.length (variations base) = 10%nat) /\
    map (fun kw => (keyword kw, category kw)) (keyword_database w) =
    flat_map (fun base => map (fun v => (v, PyStr.replace " " "_" base)) (variations base))
             base_keywords /\
    Forall (fun kw =>
              keyword kw <> "" /\
              100 <= search_volume kw <= 50000 /\
              1 <= difficulty kw <= 100 /\
              two_decimals_between 50 1500 (cpc kw) /\
              leb (of_decimal 5 1) (cpc kw) = true /\
              leb (cpc kw) (of_decimal 150 1) = true /\
              In (competition kw) ["Low"; "Medium"; "High"] /\
              In (trend kw) ["Rising"; "Stable"; "Declining"] /\
              exists base,
                In base base_keywords /\
                In (keyword kw) (variations base) /\
                category kw = PyStr.replace " " "_" base)
           (keyword_database w) /\
    map (PyStr.replace " " "_") base_keywords =
    [ "digital_marketing"; "seo_optimization"; "content_marketing"; "social_media";
      "web_development"; "python_programming"; "data_science"; "machine_learning";
      "artificial_intelligence"; "cloud_computing"; "cybersecurity"; "blockchain";
      "e-commerce"; "online_business"; "startup"; "entrepreneurship" ] /\
    (forall s, String.length (PyStr.replace " " "_" s) = String.length s) /\
    (forall s i,
        String.get i (PyStr.replace " " "_" s) =
        option_map (fun c => if Ascii.eqb c " " then "_"%char else c) (String.get i s)).
Proof.
  destruct (startup_spec g) as (w & E & F).
  destruct (startup_store_ok g w E) as [Hlen Hok].
  exists w. split; [exact E|]. split; [exact Hlen|].
  split; [reflexivity|]. split; [reflexivity|].
  split; [|split; [|split; [reflexivity|split;
                            [apply replace_length | apply replace_get]]]].
  - rewrite (Forall2_map_eq _ (fun kw => (keyword kw, category kw))
                            (fun p => (snd p, PyStr.replace " " "_" (fst p))) _ _ F).
    + unfold store_plan. clear. induction base_keywords as [|b l IH]; [reflexivity|].
      cbn [flat_map]. rewrite map_app, IH. reflexivity.
    + intros p kw (Hk & Hc & _). now rewrite Hk, Hc.
  - eapply Forall_impl; [|exact Hok].
    intros kw (Hne & (Hv & Hd & Hc & _ & Hlo & Hhi & Hcomp & Htrend) & Hbase).
    repeat split; assumption || lia.
Qed.

Lemma store_example :
  exists w,
    startup (R := Lcg.lcg_random) example_seed = (Ok tt, w) /\
    List.length (keyword_database w) = 160%nat /\
    hd_error (map (fun kw => (keyword kw, category kw)) (keyword_database w)) =
    Some ("digital marketing tools", "digital_marketing").
Proof.
  destruct (store_spec Z Lcg.lcg_random lcg_laws example_seed)
    as (w & E & H & _ & _ & Hplan & _).
  exists w. split; [exact E|]. split; [exact H|]. rewrite Hplan. reflexivity.
Defined.

(** C7.  Neither [search] nor [analyze] changes the store: the list of
    records is the same before and after every call, whether the call
    returns or raises, and the record [analyze] draws for a keyword it does
    not find is not in the store afterwards. *)
Theorem store_never_mutated (G : Type) (R : Random G) (w : world G) :
  (forall seed_keyword limit,
      keyword_database (snd (search_keywords seed_keyword limit w)) = keyword_database w) /\
  (forall keyword0,
      keyword_database (snd (analyze_keyword keyword0 w)) = keyword_database w) /\
  (forall keyword0 res w',
      analyze_keyword keyword0 w = (Ok res, w') ->
      ~ In (kw_data res) (keyword_database w) ->
      ~ In (kw_data res) (keyword_database w')).
Proof.
  split; [|split].
  - intros seed limit. apply preserves_search_keywords.
  - intros keyword0. apply preserves_analyze_keyword.
  - intros keyword0 res w' E Hnot.
    pose proof (preserves_analyze_keyword keyword0 w) as P.
    rewrite E in P. cbn [snd] in P. now rewrite P.
Qed.

(** C8.  [seasonal_trends] has exactly 12 entries, for the months Jan to
    Dec in calendar order, each with an integer volume in [70, 130]. *)
Theorem seasonal_trends_spec
        (G : Type) (R : Random G) (L : RandomLaws R) (g g' : G) (keyword0 : string) :
  exists res w',
    analyze_keyword keyword0 (started g g') = (Ok res, w') /\
    List.length (seasonal_trends res) = 12%nat /\
    map fst (seasonal_trends res) =
    ["Jan"; "Feb"; "Mar"; "Apr"; "May"; "Jun"; "Jul"; "Aug"; "Sep"; "Oct"; "Nov"; "Dec"] /\
    Forall (fun entry => 70 <= snd entry <= 130) (seasonal_trends res).
Proof.
  destruct (analyze_started g g' keyword0) as (res & w' & E & _ & Hm & Hv & _).
  exists res, w'. split; [exact E|]. split; [|split; [exact Hm | exact Hv]].
  rewrite <- (length_map fst), Hm. reflexivity.
Qed.

Lemma seasonal_trends_example :
  exists res w',
    analyze_keyword (R := Lcg.lcg_random) "startup guide"
                    (started (R := Lcg.lcg_random) example_seed 7) = (Ok res, w') /\
    List.length (seasonal_trends res) = 12%nat.
Proof.
  destruct (seasonal_trends_spec Z Lcg.lcg_random lcg_laws example_seed 7 "startup guide")
    as (res & w' & E & H & _).
  exists res, w'. split; [exact E | exact H].
Defined.

(** C9.  [serp_features] has between 2 and 5 elements, no element twice,
    and every element is one of the seven fixed features. *)
Theorem serp_features_spec
        (G : Type) (R : Random G) (L : RandomLaws R) (g g' : G) (keyword0 : string) :
  exists res w',
    analyze_keyword keyword0 (started g g') = (Ok res, w') /\
    (2 <= List.length (serp_features res) <= 5)%nat /\
    NoDup (serp_features res) /\
    (forall f, In f (serp_features res) ->
               In f ["Featured Snippets"; "People Also Ask"; "Local Pack";
                     "Images"; "Videos"; "Shopping"; "News"]).
Proof.
  destruct (analyze_started g g' keyword0) as (res & w' & E & _ & _ & _ & Hl & Hnd & Hin & _).
  exists res, w'. split; [exact E|]. split; [exact Hl|].
  split; [exact Hnd | exact Hin].
Qed.

Lemma serp_features_example :
  exists res w',
    analyze_keyword (R := Lcg.lcg_random) "startup guide"
                    (started (R := Lcg.lcg_random) example_seed 7) = (Ok res, w') /\
    NoDup (serp_features res).
Proof.
  destruct (serp_features_spec Z Lcg.lcg_random lcg_laws example_seed 7 "startup guide")
    as (res & w' & E & _ & H & _).
  exists res, w'. split; [exact E | exact H].
Defined.

(** C10.  The handler of [POST /search] calls [search_keywords] with the
    default limit 50 and reads nothing of the request but [seed_keyword]: a
    [limit] field changes nothing.  What it returns never has more than 50
    records; on the store of 160 records the empty seed returns exactly
    50. *)
Theorem search_route_limit (G : Type) (R : Random G) (L : RandomLaws R) :
  default_limit = 50 /\
  (forall (w : world G) fields s,
      dict_get (JObject fields) "seed_keyword" (JString "") = Ok (JString s) ->
      search_route (JObject fields) w = search_keywords s default_limit w) /\
  (forall (w : world G) fields v,
      search_route (JObject (("limit", v) :: fields)) w = search_route (JObject fields) w) /\
  (forall (w : world G) data l w',
      search_route data w = (Ok l, w') -> (List.length l <= 50)%nat) /\
  (forall g, exists l,
      search_route (JObject [("seed_keyword", JString "")]) (snd (startup g))
      = (Ok l, snd (startup g)) /\
      List.length l = 50%nat /\
      List.length (keyword_database (snd (startup g))) = 160%nat).
Proof.
  split; [reflexivity|]. split; [|split; [|split]].
  - intros w fields s H. unfold search_route. rewrite H. reflexivity.
  - intros w fields v. reflexivity.
  - intros w data l w'. unfold search_route.
    destruct (dict_get data "seed_keyword" (JString "")) as [v|e]; [|discriminate].
    unfold bind, lift_result.
    destruct v; try (cbn; destruct (keyword_database w); cbn;
                     intros [= <- <-] || discriminate; cbn; lia).
    intros [= <- <-]. rewrite search_in_sorted_filter. unfold default_limit.
    rewrite slice_to_nonneg by lia. rewrite length_firstn. lia.
  - intros g. destruct (startup_spec g) as (w & E & _).
    destruct (startup_store_ok g w E) as [Hlen _]. rewrite E. cbn [snd].
    exists (search_in (keyword_database w) "" default_limit).
    split; [reflexivity|]. split; [|exact Hlen].
    rewrite search_in_sorted_filter, (filter_all _ _ matches_empty_seed).
    unfold default_limit. rewrite slice_to_nonneg by lia.
    rewrite length_firstn, (Permutation_length (sort_desc_perm _ _)), Hlen.
    reflexivity.
Qed.

Lemma search_route_example :
  exists l,
    search_route (JObject [("seed_keyword", JString "")])
                 (snd (startup (R := Lcg.lcg_random) example_seed))
    = (Ok l, snd (startup (R := Lcg.lcg_random) example_seed)) /\
    List.length l = 50%nat.
Proof.
  destruct (proj2 (proj2 (proj2 (proj2
              (search_route_limit Z Lcg.lcg_random lcg_laws)))) example_seed)
    as (l & E & H & _).
  exists l. split; [exact E | exact H].
Defined.

(** * Further properties of the code *)

(** ** Letter case *)

Lemma to_lower_idem (c : ascii) : PyStr.to_lower (PyStr.to_lower c) = PyStr.to_lower c.
Proof. destruct c as [[] [] [] [] [] [] [] []]; reflexivity. Qed.

Lemma lower_idem (s : string) : PyStr.lower (PyStr.lower s) = PyStr.lower s.
Proof.
  induction s as [|c s IH]; cbn [PyStr.lower]; [reflexivity|].
  now rewrite to_lower_idem, IH.
Qed.

Lemma lower_app (a b : string) :
  PyStr.lower (a ++ b)%string = (PyStr.lower a ++ PyStr.lower b)%string.
Proof. induction a as [|c a IH]; cbn; [reflexivity | now rewrite IH]. Qed.

Lemma string_app_length (a b : string) :
  String.length (a ++ b)%string = (String.length a + String.length b)%nat.
Proof. induction a as [|c a IH]; cbn; [reflexivity | now rewrite IH]. Qed.

Lemma string_app_inj (a a' b b' : string) :
  (a ++ b = a' ++ b')%string -> String.length a = String.length a' ->
  a = a' /\ b = b'.
Proof.
  revert a'. induction a as [|c a IH]; intros [|c' a'] H Hl; cbn in *;
    try discriminate; [now split|].
  injection H as -> H. destruct (IH a' H) as [-> ->]; [congruence | now split].
Qed.

Lemma contains_lower (sub s : string) :
  PyStr.contains sub s = true ->
  PyStr.contains (PyStr.lower sub) (PyStr.lower s) = true.
Proof.
  rewrite !contains_spec. intros (pre & post & ->).
  exists (PyStr.lower pre), (PyStr.lower post). now rewrite !lower_app.
Qed.

Lemma contains_trans (a b c : string) :
  PyStr.contains a b = true -> PyStr.contains b c = true -> PyStr.contains a c = true.
Proof.
  rewrite !contains_spec. intros (p & q & ->) (p' & q' & ->).
  exists (p' ++ p)%string, (q ++ q')%string.
  now rewrite !string_app_assoc.
Qed.

(** A keyword that is all lowercase contains only lowercase words. *)
Lemma contains_in_lowercase (word s : string) :
  PyStr.lower s = s -> PyStr.contains word s = true -> PyStr.lower word = word.
Proof.
  intros Hs Hc. apply contains_spec in Hc. destruct Hc as (pre & post & E).
  rewrite E, !lower_app in Hs.
  apply string_app_inj in Hs; [|apply lower_length]. destruct Hs as [_ Hs].
  apply string_app_inj in Hs; [|apply lower_length]. now destruct Hs.
Qed.

Lemma title_char_to_lower (flag : bool) (c : ascii) :
  PyStr.title_char flag (PyStr.to_lower c) = PyStr.title_char flag c /\
  PyStr.is_cased (PyStr.to_lower c) = PyStr.is_cased c.
Proof. destruct c as [[] [] [] [] [] [] [] []], flag; split; reflexivity. Qed.

Lemma title_from_cons (flag : bool) (c : ascii) (s : string) :
  PyStr.title_from flag (String c s) =
  String (PyStr.title_char flag c) (PyStr.title_from (PyStr.is_cased c) s).
Proof.
  cbn [PyStr.title_from]. rewrite title_char_head. unfold PyStr.is_cased.
  destruct (PyStr.is_lower c); [|destruct (PyStr.is_upper c)]; reflexivity.
Qed.

(** [title] does not look at the case of its input. *)
Lemma title_lower (s : string) : PyStr.title (PyStr.lower s) = PyStr.title s.
Proof.
  unfold PyStr.title. generalize false.
  induction s as [|c s IH]; intros flag; [reflexivity|].
  cbn [PyStr.lower]. rewrite !title_from_cons.
  destruct (title_char_to_lower flag c) as [-> ->]. now rewrite IH.
Qed.

(** ** The keywords of the store *)

Lemma store_plan_lowercase (p : string * string) :
  In p store_plan -> PyStr.lower (snd p) = snd p.
Proof.
  assert (forallb (fun p => String.eqb (PyStr.lower (snd p)) (snd p)) store_plan = true) as H
    by (vm_compute; reflexivity).
  intros Hp. rewrite forallb_forall in H. now apply String.eqb_eq, H.
Qed.





Lemma filter_none {A : Type} (f : A -> bool) (l : list A) :
  (forall x, In x l -> f x = false) -> filter f l = [].
Proof.
  induction l as [|x l IH]; intros H; [reflexivity|].
  cbn [filter]. rewrite (H x (or_introl eq_refl)). apply IH.
  intros y Hy. apply H. now right.
Qed.

Section StartedStore.
Context {G : Type} {R : Random G} {L : RandomLaws R}.

Lemma started_plan (g g' : G) :
  Forall2 (fun p kw =>
             keyword kw = snd p /\
             category kw = PyStr.replace " " "_" (fst p) /\
             drawn_record_ok 50000 1500 store_cpc_max kw)
          store_plan (keyword_database (started g g')).
Proof.
  destruct (startup_spec g) as (w & E & F). unfold started. now rewrite E.
Qed.

Lemma started_ok (g g' : G) :
  List.length (keyword_database (started g g')) = 160%nat /\
  Forall store_record_ok (keyword_database (started g g')).
Proof.
  destruct (startup_spec g) as (w & E & F).
  unfold started. rewrite E. exact (startup_store_ok g w E).
Qed.


Lemma started_lowercase (g g' : G) (kw : keyword_record) :
  In kw (keyword_database (started g g')) -> PyStr.lower (keyword kw) = keyword kw.
Proof.
  intros Hkw.
  destruct (Forall2_in_right _ _ _ _ (started_plan g g') Hkw) as (p & Hp & Hk & _).
  rewrite Hk. now apply store_plan_lowercase.
Qed.
End StartedStore.

(** ** The score *)

(** X1.  [_calculate_opportunity_score] raises on no record whose
    [search_volume] has at most 1023 bits and whose [difficulty] is below
    [2^1000], whatever its [cpc] (also NaN or infinite); beyond that the
    division can raise: a volume of [10^400] gives [OverflowError]. *)
Theorem opportunity_score_never_raises :
  (forall kw,
      Z.abs (search_volume kw) < 2 ^ 1023 -> Z.abs (difficulty kw) < 2 ^ 1000 ->
      exists s, calculate_opportunity_score kw = Ok s) /\
  calculate_opportunity_score
    {| keyword := ""; search_volume := 10 ^ 400; difficulty := 40;
       cpc := of_decimal 30 1; competition := ""; trend := ""; category := "" |}
  = Raise OverflowError.
Proof.
  split; [exact calculate_opportunity_score_ok|]. vm_compute. reflexivity.
Qed.

Lemma opportunity_score_never_raises_example :
  exists s,
    calculate_opportunity_score
      {| keyword := "nan"; search_volume := -7; difficulty := 1000;
         cpc := S754_nan; competition := ""; trend := ""; category := "" |} = Ok s.
Proof.
  apply (proj1 opportunity_score_never_raises); vm_compute; reflexivity.
Defined.

(** ** Searching *)

(** X2.  With a negative [limit], [search_keywords] returns the sorted
    matches without their last [-limit] records (none when there are not
    that many). *)
Theorem search_negative_limit_spec
        (G : Type) (w : world G) (seed_keyword : string) (limit : Z) :
  limit < 0 ->
  exists result dropped,
    search_keywords seed_keyword limit w = (Ok result, w) /\
    (result ++ dropped =
     sort_desc search_volume (filter (matches_seed seed_keyword) (keyword_database w))) /\
    List.length dropped =
    Nat.min (Z.to_nat (- limit))
            (List.length (filter (matches_seed seed_keyword) (keyword_database w))).
Proof.
  intros Hl.
  set (sorted := sort_desc search_volume
                           (filter (matches_seed seed_keyword) (keyword_database w))).
  set (n := (List.length sorted - Z.to_nat (- limit))%nat).
  exists (firstn n sorted), (skipn n sorted).
  split; [|split].
  - rewrite search_keywords_run, search_in_sorted_filter. unfold slice_to.
    destruct (Z.leb_spec 0 limit); [lia | reflexivity].
  - apply firstn_skipn.
  - rewrite length_skipn. unfold n, sorted.
    rewrite (Permutation_length (sort_desc_perm _ _)). lia.
Qed.

Lemma search_negative_limit_example :
  exists result dropped : list keyword_record,
    search_keywords "seo" (-2) example_world = (Ok result, example_world) /\
    List.length dropped = 2%nat.
Proof.
  destruct (search_negative_limit_spec Z example_world "seo" (-2) ltac:(reflexivity))
    as (result & dropped & E & _ & H).
  exists result, dropped. split; [exact E | exact H].
Defined.

(** X3.  The search does not look at the letter case of the seed: two seeds
    that are equal once lowercased give the same result, and so does the
    lowercased seed. *)
Theorem search_ignores_case
        (G : Type) (w : world G) (seed_keyword seed_keyword' : string) (limit : Z) :
  PyStr.lower seed_keyword = PyStr.lower seed_keyword' ->
  search_keywords seed_keyword limit w = search_keywords seed_keyword' limit w /\
  search_keywords (PyStr.lower seed_keyword) limit w = search_keywords seed_keyword limit w.
Proof.
  intros H. rewrite !search_keywords_run. unfold search_in, matches_seed.
  rewrite lower_idem, H. split; reflexivity.
Qed.

Lemma search_ignores_case_example :
  search_keywords "SEO Optimization" 50 example_world =
  search_keywords "seo optimization" 50 example_world.
Proof.
  apply (search_ignores_case Z example_world "SEO Optimization" "seo optimization" 50).
  reflexivity.
Defined.

(** X4.  A larger limit only adds records at the end: for
    [0 <= limit <= limit'] the result for [limit] is the beginning of the
    result for [limit']. *)
Theorem search_limit_prefix
        (G : Type) (w : world G) (seed_keyword : string) (limit limit' : Z) :
  0 <= limit <= limit' ->
  exists result more,
    search_keywords seed_keyword limit w = (Ok result, w) /\
    search_keywords seed_keyword limit' w = (Ok (result ++ more), w).
Proof.
  intros [H0 Hle].
  set (sorted := sort_desc search_volume
                           (filter (matches_seed seed_keyword) (keyword_database w))).
  exists (firstn (Z.to_nat limit) sorted),
         (firstn (Z.to_nat limit' - Z.to_nat limit) (skipn (Z.to_nat limit) sorted)).
  rewrite !search_keywords_run, !search_in_sorted_filter, !slice_to_nonneg by lia.
  split; [reflexivity|]. fold sorted. do 2 f_equal.
  rewrite <- (firstn_skipn (Z.to_nat limit) sorted) at 1.
  rewrite firstn_app, firstn_firstn, length_firstn.
  replace (Nat.min (Z.to_nat limit') (Z.to_nat limit)) with (Z.to_nat limit) by lia.
  f_equal.
  destruct (Nat.le_gt_cases (Z.to_nat limit) (List.length sorted)) as [Hin|Hout].
  - now replace (Nat.min (Z.to_nat limit) (List.length sorted)) with (Z.to_nat limit) by lia.
  - rewrite skipn_all2 by lia. now rewrite !firstn_nil.
Qed.

Lemma search_limit_prefix_example :
  exists result more,
    search_keywords "o" 1 example_world = (Ok result, example_world) /\
    search_keywords "o" 3 example_world = (Ok (result ++ more), example_world).
Proof.
  exact (search_limit_prefix Z example_world "o" 1 3 ltac:(split; discriminate)).
Defined.

(** X5.  A seed that contains another seed, case apart, finds only records
    that the other seed finds. *)
Theorem search_narrower_seed
        (G : Type) (w : world G) (seed_keyword longer_seed : string) (limit : Z)
        (kw : keyword_record) :
  PyStr.contains (PyStr.lower seed_keyword) (PyStr.lower longer_seed) = true ->
  In kw (search_in (keyword_database w) longer_seed limit) ->
  In kw (search_in (keyword_database w) seed_keyword
                   (Z.of_nat (List.length (keyword_database w)))).
Proof.
  intros Hc. rewrite !search_in_sorted_filter. intros Hin.
  assert (In kw (filter (matches_seed longer_seed) (keyword_database w))) as Hf.
  { apply (Permutation_in _ (sort_desc_perm search_volume _)).
    unfold slice_to in Hin. destruct (0 <=? limit); exact (in_firstn _ _ _ Hin). }
  apply filter_In in Hf. destruct Hf as [Hdb Hm].
  rewrite slice_to_nonneg by lia. rewrite Nat2Z.id.
  rewrite firstn_all2.
  - apply (Permutation_in _ (Permutation_sym (sort_desc_perm search_volume _))).
    apply filter_In. split; [exact Hdb|].
    unfold matches_seed in *. exact (contains_trans _ _ _ Hc Hm).
  - rewrite (Permutation_length (sort_desc_perm _ _)). apply filter_length_le.
Qed.

Lemma search_narrower_seed_example :
  match example_store with
  | kw :: _ => In kw (search_in example_store "seo" 3)
  | [] => True
  end.
Proof.
  unfold example_store at 1.
  apply (search_narrower_seed Z example_world "seo" "SEO Optimization" 50 _ eq_refl).
  vm_compute. auto.
Defined.

(** The matches the limit leaves out, and their volumes. *)
Lemma search_in_top (db : list keyword_record) (seed_keyword : string) (limit : Z) :
  0 <= limit ->
  exists rest,
    Permutation (search_in db seed_keyword limit ++ rest)
                (filter (matches_seed seed_keyword) db) /\
    (forall a b, In a (search_in db seed_keyword limit) -> In b rest ->
                 search_volume b <= search_volume a).
Proof.
  intros H0. rewrite search_in_sorted_filter, slice_to_nonneg by lia.
  set (sorted := sort_desc search_volume (filter (matches_seed seed_keyword) db)).
  exists (skipn (Z.to_nat limit) sorted). split.
  - rewrite firstn_skipn. apply sort_desc_perm.
  - pose proof (sort_desc_sorted search_volume (filter (matches_seed seed_keyword) db)) as S.
    fold sorted in S. generalize (Z.to_nat limit). clear H0.
    induction S as [|x l S IH Hx]; intros [|n] a b; cbn [firstn skipn];
      try (intros []; fail).
    intros [<-|Ha] Hb.
    + rewrite Forall_forall in Hx. apply Hx.
      rewrite <- (firstn_skipn n l). apply in_or_app. now right.
    + exact (IH n a b Ha Hb).
Qed.

(** X6.  The search returns the matches of highest volume: every match it
    leaves out has at most the volume of every record it returns. *)
Theorem search_returns_top
        (G : Type) (w : world G) (seed_keyword : string) (limit : Z) :
  0 <= limit ->
  exists result rest,
    search_keywords seed_keyword limit w = (Ok result, w) /\
    Permutation (result ++ rest)
                (filter (matches_seed seed_keyword) (keyword_database w)) /\
    (forall a b, In a result -> In b rest -> search_volume b <= search_volume a).
Proof.
  intros H0.
  destruct (search_in_top (keyword_database w) seed_keyword limit H0) as (rest & P & Htop).
  exists (search_in (keyword_database w) seed_keyword limit), rest.
  split; [reflexivity|]. split; [exact P | exact Htop].
Qed.

Lemma search_returns_top_example :
  exists result rest : list keyword_record,
    search_keywords "o" 1 example_world = (Ok result, example_world) /\
    (forall a b, In a result -> In b rest -> search_volume b <= search_volume a).
Proof.
  destruct (search_returns_top Z example_world "o" 1 ltac:(discriminate))
    as (result & rest & E & _ & H).
  exists result, rest. split; [exact E | exact H].
Defined.

(** ** Analysing *)


(** X8.  The words of the keyword are matched with their case against a
    store whose keywords are all lowercase: when every word of an ASCII
    input holds an uppercase letter, [related_keywords] is empty. *)
Theorem related_keywords_case_sensitive
        (G : Type) (R : Random G) (L : RandomLaws R) (g g' : G) (keyword0 : string) :
  PyStr.is_ascii keyword0 = true ->
  (forall word, In word (PyStr.split keyword0) -> PyStr.lower word <> word) ->
  exists res w',
    analyze_keyword keyword0 (started g g') = (Ok res, w') /\
    related_keywords res = [].
Proof.
  intros _ Hupper.
  destruct (analyze_started g g' keyword0) as (res & w' & E & Hrel & _).
  exists res, w'. split; [exact E|].
  rewrite Hrel, related_in_sorted_filter.
  assert (filter (is_related (PyStr.split keyword0) keyword0)
                 (keyword_database (started g g')) = []) as ->; [|reflexivity].
  apply filter_none. intros kw Hkw.
  unfold is_related. apply andb_false_iff. left.
  apply not_true_iff_false. intros Hex. apply existsb_exists in Hex.
  destruct Hex as (word & Hword & Hc).
  apply (Hupper word Hword).
  exact (contains_in_lowercase word (keyword kw) (started_lowercase g g' kw Hkw) Hc).
Qed.

(** X9.  On a store of ASCII keywords, every keyword related to an ASCII
    input is found by searching for one of the words of the input, when the
    limit does not cut the search. *)
Theorem related_found_by_search
        (G : Type) (w : world G) (keyword0 : string) (kw : keyword_record) :
  PyStr.is_ascii keyword0 = true ->
  ascii_keywords (keyword_database w) = true ->
  In kw (related_in (keyword_database w) keyword0) ->
  exists word,
    In word (PyStr.split keyword0) /\
    In kw (search_in (keyword_database w) word
                     (Z.of_nat (List.length (keyword_database w)))).
Proof.
  intros _ _. rewrite related_in_sorted_filter. intros Hin. apply in_firstn in Hin.
  apply (Permutation_in _ (sort_desc_perm search_volume _)) in Hin.
  apply filter_In in Hin. destruct Hin as [Hdb Hrel].
  unfold is_related in Hrel. apply andb_true_iff in Hrel. destruct Hrel as [Hex _].
  apply existsb_exists in Hex. destruct Hex as (word & Hword & Hc).
  exists word. split; [exact Hword|].
  rewrite search_in_sorted_filter, slice_to_nonneg by lia.
  rewrite Nat2Z.id, firstn_all2.
  - apply (Permutation_in _ (Permutation_sym (sort_desc_perm search_volume _))).
    apply filter_In. split; [exact Hdb|]. unfold matches_seed.
    now apply contains_lower.
  - rewrite (Permutation_length (sort_desc_perm _ _)). apply filter_length_le.
Qed.

(** X10.  The content suggestions do not depend on the letter case of an
    ASCII keyword. *)
Theorem content_suggestions_ignore_case (keyword0 keyword1 : string) :
  PyStr.is_ascii keyword0 = true -> PyStr.is_ascii keyword1 = true ->
  PyStr.lower keyword0 = PyStr.lower keyword1 ->
  get_content_suggestions keyword0 = get_content_suggestions keyword1.
Proof.
  intros _ _ H. unfold get_content_suggestions.
  rewrite <- (title_lower keyword0), <- (title_lower keyword1), H. reflexivity.
Qed.

Lemma content_suggestions_ignore_case_example :
  get_content_suggestions "SEO tIPS" = get_content_suggestions "seo tips".
Proof.
  apply (content_suggestions_ignore_case "SEO tIPS" "seo tips"); reflexivity.
Defined.





Lemma related_keywords_case_sensitive_example :
  exists res w',
    analyze_keyword (R := Lcg.lcg_random) "SEO Tips"
                    (started (R := Lcg.lcg_random) example_seed 7) = (Ok res, w') /\
    related_keywords res = [].
Proof.
  apply (related_keywords_case_sensitive Z Lcg.lcg_random lcg_laws example_seed 7 "SEO Tips");
    [reflexivity|].
  intros word [<-|[<-|[]]]; discriminate.
Defined.

Lemma related_found_by_search_example :
  match example_store with
  | kw :: _ =>
      exists word,
        In word (PyStr.split "seo tips") /\ In kw (search_in example_store word 3)
  | [] => True
  end.
Proof.
  unfold example_store at 1.
  apply (related_found_by_search Z example_world "seo tips");
    [reflexivity | reflexivity |].
  vm_compute. auto.
Defined.

(** ** The routes *)

(** X12.  A request body that is not a JSON object makes both handlers
    raise [AttributeError] and leaves the store and the generator as they
    were; after startup, so does a [seed_keyword] or a [keyword] that is
    not a string. *)
Theorem routes_reject_malformed (G : Type) (R : Random G) (L : RandomLaws R) :
  (forall (w : world G) data,
      (forall fields, data <> JObject fields) ->
      search_route data w = (Raise AttributeError, w) /\
      analyze_route data w = (Raise AttributeError, w)) /\
  (forall g g' fields v,
      dict_get (JObject fields) "seed_keyword" (JString "") = Ok v ->
      (forall s, v <> JString s) ->
      search_route (JObject fields) (started g g') = (Raise AttributeError, started g g')) /\
  (forall g g' fields v,
      dict_get (JObject fields) "keyword" (JString "") = Ok v ->
      (forall s, v <> JString s) ->
      analyze_route (JObject fields) (started g g') = (Raise AttributeError, started g g')).
Proof.
  assert (forall g g', exists kw db, keyword_database (started g g') = kw :: db) as Hne.
  { intros g g'. destruct (started_ok g g') as [Hlen _].
    destruct (keyword_database (started g g')) as [|kw db]; [discriminate|].
    now exists kw, db. }
  split; [|split].
  - intros w data Hd.
    destruct data as [| | | | |fields]; try (split; reflexivity).
    now destruct (Hd fields).
  - intros g g' fields v Hv Hs. unfold search_route. rewrite Hv.
    destruct (Hne g g') as (kw & db & Hdb).
    destruct v as [| | |s| |]; try (now destruct (Hs s));
      unfold bind, lift_result, read_database; cbv beta iota; rewrite Hdb; reflexivity.
  - intros g g' fields v Hv Hs. unfold analyze_route. rewrite Hv.
    destruct (Hne g g') as (kw & db & Hdb).
    destruct v as [| | |s| |]; try (now destruct (Hs s));
      unfold bind, lift_result, read_database; cbv beta iota; rewrite Hdb; reflexivity.
Qed.

Lemma routes_reject_malformed_example :
  search_route (JObject [("seed_keyword", JNumber 7)])
               (started (R := Lcg.lcg_random) example_seed 7)
  = (Raise AttributeError, started (R := Lcg.lcg_random) example_seed 7).
Proof.
  apply (proj1 (proj2 (routes_reject_malformed Z Lcg.lcg_random lcg_laws))
               example_seed 7 _ (JNumber 7)).
  - reflexivity.
  - discriminate.
Defined.

(** X13.  [POST /analyze] without a [keyword] field analyses the empty
    string: after startup it returns a drawn record with the empty keyword
    and the category "general", and no related keyword. *)
Theorem analyze_route_missing_keyword
        (G : Type) (R : Random G) (L : RandomLaws R) (g g' : G)
        (fields : list (string * json)) :
  find (fun kv => String.eqb (fst kv) "keyword") fields = None ->
  exists res w',
    analyze_route (JObject fields) (started g g') = (Ok res, w') /\
    keyword (kw_data res) = "" /\
    category (kw_data res) = "general" /\
    related_keywords res = [].
Proof.
  intros Hmiss. unfold analyze_route, dict_get. rewrite Hmiss.
  unfold lift_result at 1. unfold bind at 1.
  destruct (started_ok g g') as [_ Hok].
  destruct (analyze_keyword_spec "" (started g g')) as (res & w' & E & H & _ & Hrel & _).
  { apply store_ok_scored. exact Hok. }
  assert (find (same_keyword "") (keyword_database (started g g')) = None) as F.
  { destruct (find (same_keyword "") (keyword_database (started g g')))
      as [kw|] eqn:F; [|reflexivity].
    apply find_some in F. destruct F as [Hin Hsame].
    rewrite Forall_forall in Hok. destruct (Hok kw Hin) as (Hne & _).
    unfold same_keyword in Hsame. apply String.eqb_eq in Hsame.
    destruct (keyword kw); [now destruct Hne | discriminate]. }
  rewrite F in H. destruct H as (Hk & Hc & _).
  exists res, w'. split; [exact E|]. split; [exact Hk|]. split; [exact Hc|].
  rewrite Hrel, related_in_sorted_filter, filter_none; [reflexivity|].
  intros kw _. reflexivity.
Qed.

Lemma analyze_route_missing_keyword_example :
  exists res w',
    analyze_route (R := Lcg.lcg_random) (JObject [("seed_keyword", JString "seo")])
                  (started (R := Lcg.lcg_random) example_seed 7) = (Ok res, w') /\
    keyword (kw_data res) = "".
Proof.
  destruct (analyze_route_missing_keyword Z Lcg.lcg_random lcg_laws example_seed 7
              [("seed_keyword", JString "seo")] eq_refl)
    as (res & w' & E & H & _).
  exists res, w'. split; [exact E | exact H].
Defined.

(** X14.  [POST /search] without a [seed_keyword] field searches the empty
    seed: after startup it returns 50 records of the store, and each of the
    110 others has at most the volume of each of them. *)
Theorem search_route_missing_seed
        (G : Type) (R : Random G) (L : RandomLaws R) (g g' : G)
        (fields : list (string * json)) :
  find (fun kv => String.eqb (fst kv) "seed_keyword") fields = None ->
  exists result rest,
    search_route (JObject fields) (started g g') = (Ok result, started g g') /\
    List.length result = 50%nat /\
    List.length rest = 110%nat /\
    Permutation (result ++ rest) (keyword_database (started g g')) /\
    (forall a b, In a result -> In b rest -> search_volume b <= search_volume a).
Proof.
  intros Hmiss.
  destruct (search_in_top (keyword_database (started g g')) "" default_limit
                          ltac:(discriminate)) as (rest & P & Htop).
  rewrite (filter_all _ _ matches_empty_seed) in P.
  exists (search_in (keyword_database (started g g')) "" default_limit), rest.
  assert (List.length (search_in (keyword_database (started g g')) "" default_limit)
          = 50%nat) as Hlen.
  { rewrite search_in_sorted_filter, (filter_all _ _ matches_empty_seed).
    unfold default_limit. rewrite slice_to_nonneg by lia.
    rewrite length_firstn, (Permutation_length (sort_desc_perm _ _)).
    rewrite (proj1 (started_ok g g')). reflexivity. }
  split; [|split; [exact Hlen|split; [|split; [exact P | exact Htop]]]].
  - unfold search_route, dict_get. rewrite Hmiss. reflexivity.
  - apply Permutation_length in P. rewrite length_app, Hlen in P.
    rewrite (proj1 (started_ok g g')) in P. lia.
Qed.

Lemma search_route_missing_seed_example :
  exists result rest : list keyword_record,
    search_route (JObject []) (started (R := Lcg.lcg_random) example_seed 7)
    = (Ok result, started (R := Lcg.lcg_random) example_seed 7) /\
    List.length result = 50%nat /\
    List.length rest = 110%nat.
Proof.
  destruct (search_route_missing_seed Z Lcg.lcg_random lcg_laws example_seed 7 [] eq_refl)
    as (result & rest & E & H1 & H2 & _).
  exists result, rest. auto.
Defined.

Local Open Scope list_scope.
Local Open Scope Z_scope.

(** ** Bounds on rounded results *)

(** Rounding [M * 2^E], with or without a fraction lost below [M], for [M]
    of at least 53 bits and a result in the normal range: the mantissa is
    the truncation to 53 bits or its successor. *)
Lemma binary_round_aux_range (M : positive) (E d : Z) (lx : location) :
  Zpos (digits2_pos M) = d -> 53 <= d -> -1074 <= E -> E + d - 53 <= 970 ->
  exists m2 e2,
    binary_round_aux prec emax false (Zpos M) E lx = S754_finite false m2 e2 /\
    2 ^ 52 <= Zpos m2 < 2 ^ 53 /\
    ((e2 = E + d - 53 /\
      Zpos M / 2 ^ (d - 53) <= Zpos m2 <= Zpos M / 2 ^ (d - 53) + 1) \/
     (e2 = E + d - 52 /\ Zpos m2 = 2 ^ 52 /\ Zpos M / 2 ^ (d - 53) = 2 ^ 53 - 1)).
Proof.
  intros Hd Hd53 HE Hmax.
  pose proof (digits2_pos_bounds M) as HM. rewrite Hd in HM.
  unfold binary_round_aux, shr_fexp.
  change (Zdigits2 (Zpos M)) with (Zpos (digits2_pos M)). rewrite Hd.
  destruct (shr (shr_record_of_loc (Zpos M) lx) E _) as [r1 e1] eqn:E1.
  apply shr_spec in E1; [|rewrite shr_record_of_loc_m; lia].
  rewrite shr_record_of_loc_m, fexp_64 in E1. destruct E1 as [He1 Hr1].
  replace (Z.max (Z.max (d + E - 53) (-1074) - E) 0) with (d - 53) in * by lia.
  assert (2 ^ (d - 1) = 2 ^ (d - 53) * 2 ^ 52) as Hlo
    by (rewrite <- Z.pow_add_r by lia; f_equal; lia).
  assert (2 ^ d = 2 ^ (d - 53) * 2 ^ 53) as Hhi
    by (rewrite <- Z.pow_add_r by lia; f_equal; lia).
  assert (0 < 2 ^ (d - 53)) as Hp by (apply Z.pow_pos_nonneg; lia).
  assert (2 ^ 52 <= shr_m r1 < 2 ^ 53) as Hm1.
  { rewrite Hr1. split.
    - apply Z.div_le_lower_bound; lia.
    - apply Z.div_lt_upper_bound; lia. }
  pose proof (round_nearest_even_bounds (shr_m r1) (loc_of_shr_record r1)) as Hm2.
  set (m2 := round_nearest_even (shr_m r1) (loc_of_shr_record r1)) in *.
  rewrite <- Hr1.
  change (2 ^ 52) with 4503599627370496 in *.
  change (2 ^ 53) with 9007199254740992 in *.
  destruct (Z_lt_le_dec m2 9007199254740992) as [Hlt|Hge].
  - destruct m2 as [|q|q] eqn:Hq; [lia| |lia].
    assert (Zpos (digits2_pos q) = 53) as Dq
      by (apply digits2_pos_unique; cbn; lia).
    cbn [Zdigits2]. rewrite Dq.
    assert (fexp prec emax (53 + e1) - e1 = 0) as ->
      by (rewrite fexp_64; lia).
    cbn [shr shr_m shr_record_of_loc].
    destruct (Z.leb_spec e1 (emax - prec)) as [_|Hbad];
      [|change (emax - prec) with 971 in Hbad; lia].
    exists q, e1. split; [reflexivity|]. split; [lia|]. left. lia.
  - assert (m2 = 9007199254740992) as -> by lia.
    change (Zdigits2 9007199254740992) with 54.
    assert (fexp prec emax (54 + e1) - e1 = 1) as ->
      by (rewrite fexp_64; lia).
    cbn [shr shr_m iter_pos shr_1 shr_record_of_loc].
    destruct (Z.leb_spec (e1 + 1) (emax - prec)) as [_|Hbad];
      [|change (emax - prec) with 971 in Hbad; lia].
    exists 4503599627370496%positive, (e1 + 1).
    split; [reflexivity|]. split; [lia|]. right. lia.
Qed.

Lemma scaled_shift (m e k : Z) :
  0 <= k -> 0 <= e + 3000 -> scaled (m * 2 ^ k) e = scaled m (e + k).
Proof.
  intros Hk He. unfold scaled.
  replace (e + k + 3000) with (k + (e + 3000)) by lia.
  rewrite (Z.pow_add_r 2 k (e + 3000)) by lia. ring.
Qed.

Lemma scaled_pos (m e : Z) : 0 < m -> 0 < scaled m e \/ e + 3000 < 0.
Proof.
  intros Hm. destruct (Z_lt_le_dec (e + 3000) 0) as [|He]; [now right|].
  left. unfold scaled. assert (0 < 2 ^ (e + 3000)) by (apply Z.pow_pos_nonneg; lia). nia.
Qed.

Lemma scaled_lt_mono (m m' e : Z) :
  0 <= e + 3000 -> (scaled m e < scaled m' e <-> m < m').
Proof.
  intros He. unfold scaled.
  assert (0 < 2 ^ (e + 3000)) by (apply Z.pow_pos_nonneg; lia). nia.
Qed.

Lemma scaled_le_mono (m m' e : Z) :
  0 <= e + 3000 -> (scaled m e <= scaled m' e <-> m <= m').
Proof.
  intros He. unfold scaled.
  assert (0 < 2 ^ (e + 3000)) by (apply Z.pow_pos_nonneg; lia). nia.
Qed.

(** Two normal mantissas: the larger exponent gives the larger value. *)
Lemma scaled_exponent_lt (m m' e e' : Z) :
  2 ^ 52 <= m -> m' < 2 ^ 53 -> 0 <= e' + 3000 -> e' < e ->
  scaled m' e' < scaled m e.
Proof.
  intros Hm Hm' He' Hlt. unfold scaled.
  replace (e + 3000) with ((e - e' - 1) + (1 + (e' + 3000))) by lia.
  rewrite (Z.pow_add_r 2 (e - e' - 1)), (Z.pow_add_r 2 1 (e' + 3000)) by lia.
  change (2 ^ 1) with 2.
  assert (0 < 2 ^ (e' + 3000)) by (apply Z.pow_pos_nonneg; lia).
  assert (1 <= 2 ^ (e - e' - 1)) by (apply (Z.pow_le_mono_r 2 0); lia).
  change (2 ^ 52) with 4503599627370496 in *.
  change (2 ^ 53) with 9007199254740992 in *.
  set (P := 2 ^ (e' + 3000)) in *. set (A := 2 ^ (e - e' - 1)) in *.
  assert (m' * P < 9007199254740992 * P) by nia.
  assert (4503599627370496 <= m * A) by nia.
  assert (4503599627370496 * (2 * P) <= m * A * (2 * P))
    by (apply Z.mul_le_mono_nonneg_r; lia).
  lia.
Qed.

(** Rounding keeps a value between two normal floats it lies between. *)
Lemma round_sandwich (M : positive) (E : Z) (lx : location) (ml el mh eh : Z) :
  53 <= Zpos (digits2_pos M) -> -1074 <= E ->
  2 ^ 52 <= ml < 2 ^ 53 -> 2 ^ 52 <= mh < 2 ^ 53 ->
  -1074 <= el -> -1074 <= eh <= 970 ->
  scaled ml el < scaled (Zpos M + 1) E ->
  scaled (Zpos M) E < scaled mh eh ->
  exists m e,
    binary_round_aux prec emax false (Zpos M) E lx = S754_finite false m e /\
    2 ^ 52 <= Zpos m < 2 ^ 53 /\ -1074 <= e <= 971 /\
    scaled ml el <= scaled (Zpos m) e <= scaled mh eh.
Proof.
  intros Hd HE Hml Hmh Hel Heh Hlo Hhi.
  set (d := Zpos (digits2_pos M)) in *.
  pose proof (digits2_pos_bounds M) as HM. fold d in HM.
  set (n := d - 53). set (e1 := E + n).
  assert (0 <= n) as Hn by (unfold n; lia).
  assert (0 < 2 ^ n) as Hpn by (apply Z.pow_pos_nonneg; lia).
  assert (2 ^ (d - 1) = 2 ^ 52 * 2 ^ n) as Hlow
    by (rewrite <- Z.pow_add_r by lia; f_equal; unfold n; lia).
  assert (2 ^ d = 2 ^ 53 * 2 ^ n) as Hhigh
    by (rewrite <- Z.pow_add_r by lia; f_equal; unfold n; lia).
  assert (forall x, scaled (x * 2 ^ n) E = scaled x e1) as Hshift
    by (intros x; apply scaled_shift; lia).
  assert (scaled (2 ^ 52) e1 <= scaled (Zpos M) E) as HMlo.
  { rewrite <- Hshift. apply scaled_le_mono; lia. }
  assert (scaled (Zpos M + 1) E <= scaled (2 ^ 53) e1) as HMhi.
  { rewrite <- Hshift. apply scaled_le_mono; lia. }
  assert (e1 <= eh) as He1h.
  { destruct (Z_lt_le_dec eh e1) as [Hc|]; [|assumption].
    pose proof (scaled_exponent_lt (2 ^ 52) mh e1 eh ltac:(lia) ltac:(lia)
                                   ltac:(lia) Hc). lia. }
  assert (el <= e1) as Hel1.
  { destruct (Z_lt_le_dec e1 el) as [Hc|]; [|assumption].
    assert (scaled (2 ^ 53) e1 <= scaled ml el); [|lia].
    replace (2 ^ 53) with (2 ^ 52 * 2 ^ 1) by reflexivity.
    rewrite scaled_shift by (unfold e1; lia).
    destruct (Z.eq_dec el (e1 + 1)) as [->|Hne].
    - apply scaled_le_mono; [unfold e1; lia | lia].
    - apply Z.lt_le_incl.
      apply (scaled_exponent_lt ml (2 ^ 52) el (e1 + 1));
        [lia | reflexivity | unfold e1; lia | lia]. }
  destruct (binary_round_aux_range M E d lx eq_refl Hd HE ltac:(unfold e1, n in *; lia))
    as (m2 & e2 & Hr & Hm2 & Hcase).
  fold n in Hcase. replace (E + d - 53) with e1 in Hcase by (unfold e1, n; lia).
  replace (E + d - 52) with (e1 + 1) in Hcase by (unfold e1, n; lia).
  assert (el = e1 -> ml <= Zpos M / 2 ^ n) as Hfloor.
  { intros ->. rewrite <- (Hshift ml) in Hlo.
    apply scaled_lt_mono in Hlo; [|lia].
    apply Z.div_le_lower_bound; lia. }
  assert (eh = e1 -> Zpos M / 2 ^ n < mh) as Hceil.
  { intros ->. rewrite <- (Hshift mh) in Hhi.
    apply scaled_lt_mono in Hhi; [|lia].
    apply Z.div_lt_upper_bound; lia. }
  exists m2, e2. split; [exact Hr|]. split; [exact Hm2|].
  assert (0 <= e1 + 3000) by (unfold e1; lia).
  destruct Hcase as [(-> & Hq1 & Hq2) | (-> & Hq1 & Hq2)].
  - split; [unfold e1; lia|]. split.
    + destruct (Z.eq_dec el e1) as [->|Hne].
      * apply scaled_le_mono; [lia|]. specialize (Hfloor eq_refl). lia.
      * apply Z.lt_le_incl. apply scaled_exponent_lt; lia.
    + destruct (Z.eq_dec eh e1) as [->|Hne].
      * apply scaled_le_mono; [lia|]. specialize (Hceil eq_refl). lia.
      * apply Z.lt_le_incl. apply scaled_exponent_lt; lia.
  - assert (eh <> e1) as Hne.
    { intros Heq. specialize (Hceil Heq). lia. }
    split; [unfold e1 in *; lia|]. split.
    + apply Z.lt_le_incl. apply scaled_exponent_lt; lia.
    + destruct (Z.eq_dec eh (e1 + 1)) as [->|Hne'].
      * apply scaled_le_mono; lia.
      * apply Z.lt_le_incl. apply scaled_exponent_lt; lia.
Qed.

(** The order of two normal floats is the order of their scaled values. *)
Lemma leb_of_scaled (m m' : positive) (e e' : Z) :
  2 ^ 52 <= Zpos m < 2 ^ 53 -> 2 ^ 52 <= Zpos m' < 2 ^ 53 ->
  -1074 <= e -> -1074 <= e' ->
  scaled (Zpos m) e <= scaled (Zpos m') e' ->
  leb (S754_finite false m e) (S754_finite false m' e') = true.
Proof.
  intros Hm Hm' He He' H. unfold leb, SFleb, SFcompare.
  destruct (Z.compare_spec e e') as [->|Hlt|Hgt].
  - apply scaled_le_mono in H; [|lia].
    fold (Pos.compare m m').
    destruct (Pos.compare_spec m m') as [| |Hc]; try reflexivity. lia.
  - reflexivity.
  - pose proof (scaled_exponent_lt (Zpos m) (Zpos m') e e' ltac:(lia) ltac:(lia)
                                   ltac:(lia) Hgt). lia.
Qed.

Lemma scaled_of_leb (m m' : positive) (e e' : Z) :
  2 ^ 52 <= Zpos m < 2 ^ 53 -> 2 ^ 52 <= Zpos m' < 2 ^ 53 ->
  -1074 <= e -> -1074 <= e' ->
  leb (S754_finite false m e) (S754_finite false m' e') = true ->
  scaled (Zpos m) e <= scaled (Zpos m') e'.
Proof.
  intros Hm Hm' He He' H.
  destruct (leb_pos_finite _ _ _ _ _ H) as [?|[Hlt|[-> Hle]]]; [discriminate| |].
  - apply Z.lt_le_incl. apply scaled_exponent_lt; lia.
  - apply scaled_le_mono; lia.
Qed.

(** *** Multiplication by 5 *)

Lemma mul_5_sandwich (m : positive) (e ml el mh eh : Z) :
  2 ^ 52 <= Zpos m < 2 ^ 53 -> -1024 <= e ->
  2 ^ 52 <= ml < 2 ^ 53 -> 2 ^ 52 <= mh < 2 ^ 53 ->
  -1074 <= el -> -1074 <= eh <= 970 ->
  scaled ml el <= 5 * scaled (Zpos m) e < scaled mh eh ->
  exists m' e',
    mul (S754_finite false m e) (S754_finite false 5629499534213120 (-50))
    = S754_finite false m' e' /\
    2 ^ 52 <= Zpos m' < 2 ^ 53 /\ -1074 <= e' <= 971 /\
    scaled ml el <= scaled (Zpos m') e' <= scaled mh eh.
Proof.
  intros Hm He Hml Hmh Hel Heh [Hlo Hhi].
  unfold mul, SFmul. cbn [xorb].
  set (M := (m * 5629499534213120)%positive).
  assert (Zpos M = Zpos m * 5 * 2 ^ 50) as HM by (unfold M; lia).
  assert (scaled (Zpos M) (e + -50) = 5 * scaled (Zpos m) e) as HV.
  { rewrite HM, scaled_shift by lia. replace (e + -50 + 50) with e by lia.
    unfold scaled. ring. }
  assert (scaled (Zpos M) (e + -50) < scaled (Zpos M + 1) (e + -50)) as Hstep
    by (apply scaled_lt_mono; lia).
  apply round_sandwich; try lia.
  pose proof (digits2_pos_bounds M) as [_ Dhi].
  destruct (Z_lt_le_dec (Zpos (digits2_pos M)) 53) as [Hc|]; [|assumption].
  assert (2 ^ Zpos (digits2_pos M) <= 2 ^ 52) by (apply Z.pow_le_mono_r; lia).
  change (2 ^ 52) with 4503599627370496 in *. change (2 ^ 50) with 1125899906842624 in *.
  lia.
Qed.

(** *** Addition of two normal floats *)

Lemma shl_align_fst (mx : positive) (ex ez : Z) :
  ez <= ex -> Zpos (fst (shl_align mx ex ez)) = Zpos mx * 2 ^ (ex - ez).
Proof.
  intros H. unfold shl_align.
  destruct (ez - ex) as [|d|d] eqn:Ed; cbn [fst].
  - replace (ex - ez) with 0 by lia. cbn. lia.
  - lia.
  - rewrite iter_xO. f_equal. f_equal. lia.
Qed.

Lemma add_sandwich (mx my : positive) (ex ey ml el mh eh : Z) :
  2 ^ 52 <= Zpos mx < 2 ^ 53 -> 2 ^ 52 <= Zpos my < 2 ^ 53 ->
  -1074 <= ex -> -1074 <= ey ->
  2 ^ 52 <= ml < 2 ^ 53 -> 2 ^ 52 <= mh < 2 ^ 53 ->
  -1074 <= el -> -1074 <= eh <= 970 ->
  scaled ml el <= scaled (Zpos mx) ex + scaled (Zpos my) ey < scaled mh eh ->
  exists m e,
    add (S754_finite false mx ex) (S754_finite false my ey) = S754_finite false m e /\
    2 ^ 52 <= Zpos m < 2 ^ 53 /\ -1074 <= e <= 971 /\
    scaled ml el <= scaled (Zpos m) e <= scaled mh eh.
Proof.
  intros Hmx Hmy Hex Hey Hml Hmh Hel Heh [Hlo Hhi].
  unfold add, SFadd. cbn [cond_Zopp].
  set (ez := Z.min ex ey).
  rewrite (shl_align_fst mx ex ez), (shl_align_fst my ey ez) by (unfold ez; lia).
  assert (0 < 2 ^ (ex - ez)) as Px by (apply Z.pow_pos_nonneg; unfold ez; lia).
  assert (0 < 2 ^ (ey - ez)) as Py by (apply Z.pow_pos_nonneg; unfold ez; lia).
  destruct (Zpos mx * 2 ^ (ex - ez) + Zpos my * 2 ^ (ey - ez)) as [|S|S] eqn:ES;
    [nia | | nia].
  assert (scaled (Zpos S) ez = scaled (Zpos mx) ex + scaled (Zpos my) ey) as HV.
  { rewrite <- ES. unfold scaled at 1. rewrite Z.mul_add_distr_r.
    fold (scaled (Zpos mx * 2 ^ (ex - ez)) ez). fold (scaled (Zpos my * 2 ^ (ey - ez)) ez).
    rewrite !scaled_shift by (unfold ez; lia).
    now replace (ez + (ex - ez)) with ex by lia; replace (ez + (ey - ez)) with ey by lia. }
  assert (2 ^ 53 <= Zpos S) as HS.
  { rewrite <- ES. change (2 ^ 52) with 4503599627370496 in *.
    change (2 ^ 53) with 9007199254740992 in *. nia. }
  assert (54 <= Zpos (digits2_pos S)) as HD.
  { pose proof (digits2_pos_bounds S) as [_ Dhi].
    destruct (Z_lt_le_dec (Zpos (digits2_pos S)) 54) as [Hc|]; [|assumption].
    assert (2 ^ Zpos (digits2_pos S) <= 2 ^ 53) by (apply Z.pow_le_mono_r; lia). lia. }
  cbn [binary_normalize]. unfold binary_round.
  assert (shl_align S ez (fexp prec emax (Zpos (digits2_pos S) + ez)) = (S, ez)) as ->.
  { unfold shl_align. rewrite fexp_64.
    destruct (Z.max (Zpos (digits2_pos S) + ez - 53) (-1074) - ez) eqn:Ed;
      try reflexivity. unfold ez in *. lia. }
  assert (scaled (Zpos S) ez < scaled (Zpos S + 1) ez) as Hstep
    by (apply scaled_lt_mono; unfold ez; lia).
  apply round_sandwich; try lia; unfold ez; lia.
Qed.

(** *** Division *)

Lemma scale_one_pos : 0 < scale_one.
Proof. apply Z.pow_pos_nonneg; lia. Qed.

Lemma scaled_mul (a b c d : Z) :
  0 <= b + 3000 -> 0 <= d + 3000 -> 0 <= b + d + 3000 ->
  scaled a b * scaled c d = scaled (a * c) (b + d) * scale_one.
Proof.
  intros Hb Hd Hbd. unfold scaled.
  replace (a * 2 ^ (b + 3000) * (c * 2 ^ (d + 3000)))
    with (a * c * (2 ^ (b + 3000) * 2 ^ (d + 3000))) by ring.
  rewrite <- (Z.pow_add_r 2 (b + 3000) (d + 3000)) by lia.
  replace (a * c * 2 ^ (b + d + 3000) * scale_one)
    with (a * c * (2 ^ (b + d + 3000) * scale_one)) by ring.
  unfold scale_one. rewrite <- (Z.pow_add_r 2 (b + d + 3000) 3000) by lia.
  f_equal. f_equal. lia.
Qed.

Lemma div_sandwich (mx my : positive) (ex ey ml el mh eh : Z) :
  Zpos (digits2_pos mx) <= Zpos (digits2_pos my) + 53 ->
  Zpos my < 2 ^ 53 ->
  -1074 <= Zpos (digits2_pos mx) + ex - (Zpos (digits2_pos my) + ey) - 53 ->
  -1074 <= ex -> -1074 <= ey ->
  2 ^ 52 <= ml < 2 ^ 53 -> 2 ^ 52 <= mh < 2 ^ 53 ->
  -1074 <= el -> -1074 <= eh <= 970 ->
  scaled ml el * scaled (Zpos my) ey <= scaled (Zpos mx) ex * scale_one ->
  scaled (Zpos mx) ex * scale_one < scaled mh eh * scaled (Zpos my) ey ->
  exists m e,
    div (S754_finite false mx ex) (S754_finite false my ey) = S754_finite false m e /\
    2 ^ 52 <= Zpos m < 2 ^ 53 /\ -1074 <= e <= 971 /\
    scaled ml el <= scaled (Zpos m) e <= scaled mh eh.
Proof.
  intros Hd Hmy Ht Hex Hey Hml Hmh Hel Heh Hlo Hhi.
  unfold div, SFdiv, SFdiv_core_binary. cbn [Zdigits2 xorb]. rewrite fexp_64.
  set (d1 := Zpos (digits2_pos mx)) in *. set (d2 := Zpos (digits2_pos my)) in *.
  assert (0 < d1) as Hd1 by (unfold d1; lia).
  assert (0 < d2 <= 53) as Hd2.
  { split; [unfold d2; lia|]. apply (Zdigits2_le (Zpos my) 53); lia. }
  set (s := 53 + d2 - d1).
  assert (Z.min (Z.max (d1 + ex - (d2 + ey) - 53) (-1074)) (ex - ey) = ex - ey - s) as ->
    by (unfold s; lia).
  set (e' := ex - ey - s).
  replace (ex - ey - e') with s by (unfold e'; lia).
  set (m' := match s with
             | 0 => Zpos mx
             | Zpos _ => Z.shiftl (Zpos mx) s
             | Zneg _ => 0
             end).
  assert (m' = Zpos mx * 2 ^ s) as Em'.
  { unfold m'. destruct s as [|k|k] eqn:Es.
    - cbn. lia.
    - now rewrite Z.shiftl_mul_pow2 by lia.
    - unfold s in Es. lia. }
  clearbody m'.
  pose proof (digits2_pos_bounds mx) as [Dlo1 _]. fold d1 in Dlo1.
  pose proof (digits2_pos_bounds my) as [_ Dhi2]. fold d2 in Dhi2.
  assert (2 ^ 52 * 2 ^ d2 <= m') as Hm'.
  { rewrite Em'. rewrite <- (Z.pow_add_r 2 52 d2) by lia.
    replace (52 + d2) with ((d1 - 1) + s) by (unfold s; lia).
    rewrite (Z.pow_add_r 2 (d1 - 1) s) by (unfold s; lia).
    apply Z.mul_le_mono_nonneg_r; [apply Z.pow_nonneg; lia | exact Dlo1]. }
  pose proof (Z_div_mod m' (Zpos my) ltac:(lia)) as Hdiv.
  destruct (Z.div_eucl m' (Zpos my)) as [q r]. destruct Hdiv as [Hq Hr].
  assert (0 < 2 ^ d2) as P2 by (apply Z.pow_pos_nonneg; lia).
  assert (2 ^ 52 <= q) as Hq52.
  { change (2 ^ 52) with 4503599627370496 in *.
    destruct (Z_lt_le_dec q 4503599627370496) as [Hc|]; [|assumption]. nia. }
  destruct q as [|Q|Q]; [change (2 ^ 52) with 4503599627370496 in Hq52; lia | |lia].
  assert (53 <= Zpos (digits2_pos Q)) as HD.
  { pose proof (digits2_pos_bounds Q) as [_ Dhi].
    destruct (Z_lt_le_dec (Zpos (digits2_pos Q)) 53) as [Hc|]; [|assumption].
    assert (2 ^ Zpos (digits2_pos Q) <= 2 ^ 52) by (apply Z.pow_le_mono_r; lia). lia. }
  assert (scaled (Zpos mx) ex = scaled m' (e' + ey)) as EX.
  { rewrite Em', scaled_shift by (unfold e', s; lia).
    f_equal. unfold e'. lia. }
  assert (0 < scaled (Zpos my) ey) as HY.
  { destruct (scaled_pos (Zpos my) ey ltac:(lia)); [assumption|lia]. }
  assert (0 < scale_one) as P3 by apply scale_one_pos.
  assert (scaled (Zpos Q) e' * scaled (Zpos my) ey <= scaled (Zpos mx) ex * scale_one) as Hql.
  { rewrite scaled_mul, EX by (unfold e', s; lia).
    apply Z.mul_le_mono_nonneg_r; [lia|].
    apply scaled_le_mono; [unfold e', s; lia | lia]. }
  assert (scaled (Zpos mx) ex * scale_one < scaled (Zpos Q + 1) e' * scaled (Zpos my) ey) as Hqh.
  { rewrite scaled_mul, EX by (unfold e', s; lia).
    apply Z.mul_lt_mono_pos_r; [lia|].
    apply scaled_lt_mono; [unfold e', s; lia | lia]. }
  apply round_sandwich;
    [exact HD | unfold e', s; lia | exact Hml | exact Hmh | exact Hel | exact Heh | | ].
  - apply (Z.mul_lt_mono_pos_r (scaled (Zpos my) ey)); [exact HY|]. lia.
  - apply (Z.mul_lt_mono_pos_r (scaled (Zpos my) ey)); [exact HY|]. lia.
Qed.

(** *** Ranges of values *)

Lemma unit_pos : 0 < scale_unit.
Proof. apply Z.pow_pos_nonneg; lia. Qed.

Lemma unit_1024 : scale_one = 1024 * scale_unit.
Proof.
  unfold scale_one, scale_unit. change 3000 with (10 + 2990).
  rewrite (Z.pow_add_r 2 10 2990) by lia. reflexivity.
Qed.

(** Every positive multiple of [1 / 1024] below [2^43] is a normal float. *)
Lemma dyadic_bound (K : Z) :
  0 < K < 2 ^ 53 ->
  exists ml el,
    2 ^ 52 <= ml < 2 ^ 53 /\ -1074 <= el <= 970 /\ scaled ml el = K * scale_unit.
Proof.
  intros HK. destruct K as [|p|p]; try lia.
  pose proof (digits2_pos_bounds p) as [Dlo Dhi].
  set (d := Zpos (digits2_pos p)) in *.
  assert (0 < d) as Hd by (unfold d; lia).
  assert (d <= 53) as Hd' by (apply (Zdigits2_le (Zpos p) 53); lia).
  exists (Zpos p * 2 ^ (53 - d)), (d - 63). split; [|split; [lia|]].
  - assert (2 ^ 52 = 2 ^ (d - 1) * 2 ^ (53 - d)) as E1
      by (rewrite <- Z.pow_add_r by lia; f_equal; lia).
    assert (2 ^ 53 = 2 ^ d * 2 ^ (53 - d)) as E2
      by (rewrite <- Z.pow_add_r by lia; f_equal; lia).
    rewrite E1, E2.
    assert (0 < 2 ^ (53 - d)) by (apply Z.pow_pos_nonneg; lia). nia.
  - rewrite scaled_shift by lia. unfold scaled, scale_unit. f_equal. f_equal. lia.
Qed.

Lemma within_weaken (L H L' H' : Z) (x : float64) :
  within L H x -> L' <= L -> H <= H' -> within L' H' x.
Proof.
  intros (m & e & -> & Hm & He & Hv) HL HH. exists m, e.
  pose proof unit_pos. repeat split; try lia; nia.
Qed.

Lemma within_le (a b : Z) (x : float64) : within a b x -> a <= b.
Proof.
  intros (m & e & _ & _ & _ & Hv). pose proof unit_pos.
  set (U := scale_unit) in *. clearbody U. nia.
Qed.

(** A float of at least [1 / 1024] has an exponent of at least -62. *)
Lemma within_exponent (L H : Z) (m : positive) (e : Z) :
  0 < L -> 2 ^ 52 <= Zpos m < 2 ^ 53 -> -1074 <= e ->
  L * scale_unit <= scaled (Zpos m) e -> -62 <= e.
Proof.
  intros HL Hm He Hv.
  destruct (Z_lt_le_dec e (-62)) as [Hc|]; [|assumption].
  pose proof (scaled_exponent_lt (2 ^ 52) (Zpos m) (-62) e ltac:(lia) ltac:(lia)
                                 ltac:(lia) Hc) as Hlt.
  assert (scaled (2 ^ 52) (-62) = scale_unit) as E.
  { unfold scaled, scale_unit. rewrite <- (Z.pow_add_r 2 52 (-62 + 3000)) by lia.
    reflexivity. }
  rewrite E in Hlt. pose proof unit_pos. nia.
Qed.

Lemma mul_5_within (a b L H : Z) (x : float64) :
  within a b x -> 0 < a -> 0 < L <= 5 * a -> 5 * b < H < 2 ^ 53 ->
  within L H (mul x (S754_finite false 5629499534213120 (-50))).
Proof.
  intros Hx Ha HL HH. pose proof (within_le a b x Hx) as Hab.
  destruct Hx as (m & e & -> & Hm & He & Hv).
  destruct (dyadic_bound L) as (ml & el & Hml & Hel & EL); [lia|].
  destruct (dyadic_bound H) as (mh & eh & Hmh & Heh & EH); [lia|].
  pose proof (within_exponent a b m e Ha Hm ltac:(lia) ltac:(lia)) as He'.
  pose proof unit_pos as HU.
  assert (scaled ml el <= 5 * scaled (Zpos m) e < scaled mh eh) as Hs
    by (rewrite EL, EH; set (U := scale_unit) in *; clearbody U; nia).
  destruct (mul_5_sandwich m e ml el mh eh Hm ltac:(lia) Hml Hmh (proj1 Hel) Heh Hs)
    as (m' & e' & E & Hm' & He2 & Hv').
  exists m', e'. rewrite <- EL, <- EH. auto.
Qed.

Lemma add_within (a b c d L H : Z) (x y : float64) :
  within a b x -> within c d y -> 0 < L <= a + c -> b + d < H < 2 ^ 53 ->
  within L H (add x y).
Proof.
  intros Hx Hy HL HH.
  pose proof (within_le a b x Hx) as Hab. pose proof (within_le c d y Hy) as Hcd.
  destruct Hx as (mx & ex & -> & Hmx & Hex & Hvx).
  destruct Hy as (my & ey & -> & Hmy & Hey & Hvy).
  destruct (dyadic_bound L) as (ml & el & Hml & Hel & EL); [lia|].
  destruct (dyadic_bound H) as (mh & eh & Hmh & Heh & EH); [lia|].
  pose proof unit_pos as HU.
  assert (scaled ml el <= scaled (Zpos mx) ex + scaled (Zpos my) ey < scaled mh eh) as Hs
    by (rewrite EL, EH; set (U := scale_unit) in *; clearbody U; nia).
  destruct (add_sandwich mx my ex ey ml el mh eh Hmx Hmy (proj1 Hex) (proj1 Hey)
                         Hml Hmh (proj1 Hel) Heh Hs)
    as (m' & e' & E & Hm' & He2 & Hv').
  exists m', e'. rewrite <- EL, <- EH. auto.
Qed.

(** Adding a zero leaves a float as it is. *)
Lemma add_zero_within (L H : Z) (x : float64) :
  within L H x -> add x (S754_zero false) = x.
Proof. intros (m & e & -> & _). reflexivity. Qed.

Lemma div_within (mx my : positive) (ex ey c L H : Z) :
  Zpos (digits2_pos mx) <= Zpos (digits2_pos my) + 53 ->
  Zpos my < 2 ^ 53 ->
  -1074 <= Zpos (digits2_pos mx) + ex - (Zpos (digits2_pos my) + ey) - 53 ->
  -1074 <= ex -> -1074 <= ey ->
  scaled (Zpos my) ey = c * scale_one -> 0 < c ->
  0 < L -> H < 2 ^ 53 ->
  L * c * scale_unit <= scaled (Zpos mx) ex < H * c * scale_unit ->
  within L H (div (S754_finite false mx ex) (S754_finite false my ey)).
Proof.
  intros Hd Hmy Ht Hex Hey EY Hc HL HH [Hlo Hhi].
  assert (L < H) as HLH
    by (pose proof unit_pos; set (U := scale_unit) in *; clearbody U; nia).
  destruct (dyadic_bound L) as (ml & el & Hml & Hel & EL); [lia|].
  destruct (dyadic_bound H) as (mh & eh & Hmh & Heh & EH); [lia|].
  assert (0 < scale_one) as P3 by apply scale_one_pos.
  assert (scaled ml el * scaled (Zpos my) ey <= scaled (Zpos mx) ex * scale_one) as Slo.
  { rewrite EL, EY.
    replace (L * scale_unit * (c * scale_one)) with (L * c * scale_unit * scale_one) by ring.
    apply Z.mul_le_mono_nonneg_r; [lia | exact Hlo]. }
  assert (scaled (Zpos mx) ex * scale_one < scaled mh eh * scaled (Zpos my) ey) as Shi.
  { rewrite EH, EY.
    replace (H * scale_unit * (c * scale_one)) with (H * c * scale_unit * scale_one) by ring.
    apply Z.mul_lt_mono_pos_r; [exact P3 | exact Hhi]. }
  destruct (div_sandwich mx my ex ey ml el mh eh Hd Hmy Ht Hex Hey Hml Hmh
                         (proj1 Hel) Heh Slo Shi) as (m' & e' & E & Hm' & He2 & Hv').
  exists m', e'. rewrite <- EL, <- EH. auto.
Qed.

(** The quotient of two positive integers below [2^53]. *)
Lemma of_ratio_within (n c L H : Z) :
  0 < n < 2 ^ 53 -> 0 < c < 2 ^ 53 -> 0 < L -> H < 2 ^ 53 ->
  L * c <= 1024 * n < H * c ->
  within L H (of_ratio n c).
Proof.
  intros Hn Hc HL HH Hb.
  destruct n as [|p|p], c as [|q|q]; try lia. cbn [of_ratio].
  pose proof (digits2_pos_bounds p) as [_ _].
  assert (Zpos (digits2_pos p) <= 53) by (apply (Zdigits2_le (Zpos p) 53); lia).
  assert (Zpos (digits2_pos q) <= 53) by (apply (Zdigits2_le (Zpos q) 53); lia).
  assert (L * Zpos q * scale_unit <= scaled (Zpos p) 0 < H * Zpos q * scale_unit) as Hb'.
  { change (scaled (Zpos p) 0) with (Zpos p * scale_one). rewrite unit_1024.
    pose proof unit_pos. set (U := scale_unit) in *. clearbody U. nia. }
  apply (div_within p q 0 0 (Zpos q) L H);
    [lia | lia | lia | lia | lia | reflexivity | lia | exact HL | exact HH | exact Hb'].
Qed.

(** The quotient of a float by 3.0. *)
Lemma div_3_within (a b L H : Z) (x : float64) :
  within a b x -> 0 < a -> 0 < L -> H < 2 ^ 53 -> L * 3 <= a -> b < H * 3 ->
  within L H (div x (S754_finite false 6755399441055744 (-51))).
Proof.
  intros (m & e & -> & Hm & He & Hv) Ha HL HH Hlo Hhi.
  pose proof (within_exponent a b m e Ha Hm ltac:(lia) ltac:(lia)) as He'.
  assert (Zpos (digits2_pos m) = 53) as D by (apply digits2_pos_unique; lia).
  assert (Zpos (digits2_pos 6755399441055744) = 53) as D' by reflexivity.
  assert (scaled 6755399441055744 (-51) = 3 * scale_one) as EY.
  { unfold scaled, scale_one. change 6755399441055744 with (3 * 2 ^ 51).
    rewrite <- Z.mul_assoc, <- (Z.pow_add_r 2 51 (-51 + 3000)) by lia. reflexivity. }
  assert (L * 3 * scale_unit <= scaled (Zpos m) e < H * 3 * scale_unit) as Hb.
  { pose proof unit_pos. set (U := scale_unit) in *. clearbody U. nia. }
  apply (div_within m 6755399441055744 e (-51) 3 L H);
    [rewrite D, D'; lia | reflexivity | rewrite D, D'; lia | lia | lia
    | exact EY | lia | exact HL | exact HH | exact Hb].
Qed.

Lemma round_half_even_nearest (n d lo hi : Z) :
  0 < d -> (2 * lo - 1) * d < 2 * n < (2 * hi + 1) * d ->
  lo <= round_half_even n d <= hi.
Proof.
  intros Hd [Hlo Hhi]. unfold round_half_even.
  pose proof (Z.div_mod n d ltac:(lia)) as E.
  pose proof (Z.mod_pos_bound n d Hd) as B.
  set (q := n / d) in *. set (r := n mod d) in *. clearbody q r.
  destruct (Z.compare_spec (2 * r) d) as [C|C|C].
  - destruct (Z.even q); nia.
  - nia.
  - nia.
Qed.

(** The float of a positive integer below [2^42] is at least the integer and
    at most [1 / 1024] above it. *)
Lemma of_Z_within (n : Z) :
  0 < n < 2 ^ 42 -> within (1024 * n) (1024 * n + 1) (of_Z n).
Proof.
  intros Hn. destruct n as [|p|p]; try lia.
  unfold of_Z. cbn [binary_normalize]. unfold binary_round. rewrite fexp_64.
  pose proof (digits2_pos_bounds p) as [Dlo Dhi].
  set (d := Zpos (digits2_pos p)) in *.
  assert (0 < d) as Hd by (unfold d; lia).
  assert (d <= 42) as Hd' by (apply (Zdigits2_le (Zpos p) 42); lia).
  replace (Z.max (d + 0 - 53) (-1074)) with (d - 53) by lia.
  unfold shl_align. destruct (d - 53 - 0) as [|k|k] eqn:Ek; try lia.
  set (M := Pos.iter xO p k).
  assert (Zpos M = Zpos p * 2 ^ Zpos k) as EM by apply iter_xO.
  assert (2 ^ 52 <= Zpos M) as HM.
  { rewrite EM. replace 52 with ((d - 1) + Zpos k) by lia.
    rewrite (Z.pow_add_r 2 (d - 1) (Zpos k)) by lia.
    apply Z.mul_le_mono_nonneg_r; [apply Z.pow_nonneg; lia | exact Dlo]. }
  assert (53 <= Zpos (digits2_pos M)) as HD.
  { pose proof (digits2_pos_bounds M) as [_ Dh].
    destruct (Z_lt_le_dec (Zpos (digits2_pos M)) 53) as [Hc|]; [|assumption].
    assert (2 ^ Zpos (digits2_pos M) <= 2 ^ 52) by (apply Z.pow_le_mono_r; lia). lia. }
  assert (scaled (Zpos M) (d - 53) = 1024 * Zpos p * scale_unit) as EV.
  { rewrite EM, scaled_shift by lia. replace (d - 53 + Zpos k) with 0 by lia.
    change (scaled (Zpos p) 0) with (Zpos p * scale_one). rewrite unit_1024. ring. }
  assert (scaled (Zpos M + 1) (d - 53) > scaled (Zpos M) (d - 53)) as Hstep
    by (apply Z.lt_gt, scaled_lt_mono; lia).
  destruct (dyadic_bound (1024 * Zpos p)) as (ml & el & Hml & Hel & EL).
  { change (2 ^ 42) with 4398046511104 in Hn. change (2 ^ 53) with 9007199254740992. lia. }
  destruct (dyadic_bound (1024 * Zpos p + 1)) as (mh & eh & Hmh & Heh & EH).
  { change (2 ^ 42) with 4398046511104 in Hn. change (2 ^ 53) with 9007199254740992. lia. }
  pose proof unit_pos as HU.
  assert (scaled ml el < scaled (Zpos M + 1) (d - 53)) as Slo by (rewrite EL; lia).
  assert (scaled (Zpos M) (d - 53) < scaled mh eh) as Shi.
  { rewrite EH, EV. set (U := scale_unit) in *. clearbody U. lia. }
  destruct (round_sandwich M (d - 53) loc_Exact ml el mh eh HD ltac:(lia) Hml Hmh
                           (proj1 Hel) Heh Slo Shi) as (m' & e' & E & Hm' & He' & Hv').
  exists m', e'. rewrite <- EL, <- EH. auto.
Qed.

(** [min(x, n)] of a float and an integer: the integer, or the float when it
    is not above the integer. *)
Lemma min_int_within (L H n : Z) (x : float64) :
  within L H x -> 0 <= n < 2 ^ 52 ->
  py_min (PyFloat x) (PyInt n) = PyInt n \/
  (py_min (PyFloat x) (PyInt n) = PyFloat x /\ within L (1024 * n) x).
Proof.
  intros (m & e & -> & Hm & He & Hv) Hn.
  unfold py_min, py_lt, compare_Z.
  destruct (Z.leb_spec 0 e) as [Hp|Hneg].
  - assert (1 <= 2 ^ e) by (apply (Z.pow_le_mono_r 2 0 e); lia).
    destruct (Z.compare_spec n (Zpos m * 2 ^ e)) as [C|C|C]; [nia | now left | nia].
  - assert (scaled (Zpos m) e <= 1024 * n * scale_unit <-> Zpos m <= n * 2 ^ (- e)) as Hiff.
    { unfold scaled.
      replace (1024 * n * scale_unit) with (n * scale_one) by (rewrite unit_1024; ring).
      replace (scale_one) with (2 ^ (- e) * 2 ^ (e + 3000))
        by (unfold scale_one; rewrite <- (Z.pow_add_r 2 (- e) (e + 3000)) by lia;
            f_equal; lia).
      assert (0 < 2 ^ (e + 3000)) by (apply Z.pow_pos_nonneg; lia).
      set (P := 2 ^ (e + 3000)) in *. set (Q := 2 ^ (- e)) in *. clearbody P Q. nia. }
    destruct (Z.compare_spec (n * 2 ^ (- e)) (Zpos m)) as [C|C|C].
    + right. split; [reflexivity|]. exists m, e. repeat split; try tauto. apply Hiff. lia.
    + now left.
    + right. split; [reflexivity|]. exists m, e. repeat split; try tauto. apply Hiff. lia.
Qed.

(** A valid float between two normal floats. *)
Lemma within_of_leb (L H : Z) (ml mh : positive) (el eh : Z) (x : float64) :
  valid x = true ->
  leb (S754_finite false ml el) x = true -> leb x (S754_finite false mh eh) = true ->
  2 ^ 52 <= Zpos ml < 2 ^ 53 -> 2 ^ 52 <= Zpos mh < 2 ^ 53 ->
  -1074 < el -> -1074 <= eh ->
  scaled (Zpos ml) el = L * scale_unit -> scaled (Zpos mh) eh = H * scale_unit ->
  within L H x.
Proof.
  intros Hv Hlo Hhi Hml Hmh Hel Heh EL EH.
  destruct (leb_finite_pos _ _ _ Hlo) as [->|(m & e & -> & Hlo')];
    [discriminate Hhi|].
  destruct (valid_normal _ _ _ Hv ltac:(lia)) as [Hn He].
  exists m, e. split; [reflexivity|]. split; [exact Hn|]. split; [lia|].
  rewrite <- EL, <- EH. split; apply scaled_of_leb; auto; lia.
Qed.

(** [round(x, 1)] of a float between 0.8515625 and 59.7421875 is the float of
    a decimal between 0.9 and 59.7. *)
Lemma round_1_within (x : float64) :
  within 872 61176 x ->
  exists k, 9 <= k <= 597 /\ round x 1 = of_decimal k 1.
Proof.
  intros (m & e & -> & Hm & He & Hlo & Hhi).
  pose proof unit_pos as HU.
  assert (e < 0) as Hneg.
  { destruct (Z_lt_le_dec e 0) as [|Hc]; [assumption|].
    assert (scaled (2 ^ 52) 0 <= scaled (Zpos m) e) as Hle.
    { destruct (Z.eq_dec e 0) as [->|].
      - apply scaled_le_mono; lia.
      - apply Z.lt_le_incl, scaled_exponent_lt; lia. }
    assert (scaled (2 ^ 52) 0 = 2 ^ 62 * scale_unit) as E.
    { unfold scaled, scale_unit.
      rewrite <- (Z.pow_add_r 2 62 2990), <- (Z.pow_add_r 2 52 (0 + 3000)) by lia.
      reflexivity. }
    rewrite E in Hle. change (2 ^ 62) with 4611686018427387904 in Hle.
    set (U := scale_unit) in *. clearbody U. nia. }
  exists (scaled_decimal m e 1).
  assert (9 <= scaled_decimal m e 1 <= 597) as B.
  { unfold scaled_decimal. destruct (Z.leb_spec 0 e) as [|_]; [lia|].
    change (10 ^ 1) with 10.
    assert (0 < 2 ^ (- e)) as Pd by (apply Z.pow_pos_nonneg; lia).
    assert (0 < 2 ^ (e + 3000)) as Pe by (apply Z.pow_pos_nonneg; lia).
    assert (1024 * scale_unit = 2 ^ (- e) * 2 ^ (e + 3000)) as EU.
    { rewrite <- unit_1024. unfold scale_one.
      rewrite <- (Z.pow_add_r 2 (- e) (e + 3000)) by lia. f_equal. lia. }
    unfold scaled in Hlo, Hhi.
    set (U := scale_unit) in *. set (P := 2 ^ (e + 3000)) in *. set (Q := 2 ^ (- e)) in *.
    clearbody U P Q.
    apply round_half_even_nearest; [exact Pd|].
    split.
    - apply (Z.mul_lt_mono_pos_r (1024 * P)); [lia|].
      replace ((2 * 9 - 1) * Q * (1024 * P)) with (17 * 1024 * (Q * P)) by ring.
      rewrite <- EU. nia.
    - apply (Z.mul_lt_mono_pos_r (1024 * P)); [lia|].
      replace ((2 * 597 + 1) * Q * (1024 * P)) with (1195 * 1024 * (Q * P)) by ring.
      rewrite <- EU. nia. }
  split; [exact B|].
  unfold round. destruct (Z.eqb_spec (scaled_decimal m e 1) 0); [lia|reflexivity].
Qed.

(** *** The sum and the mean of the partial scores *)

Lemma py_add_within (a b c d L H : Z) (v w : pynum) :
  num_within a b v -> num_within c d w ->
  0 <= a -> 0 <= c -> b < 2 ^ 52 -> d < 2 ^ 52 ->
  0 < L <= a + c -> b + d + 1 < H < 2 ^ 53 ->
  exists r, py_add v w = Ok r /\ num_within L H r.
Proof.
  intros Hv Hw Ha Hc Hb Hd HL HH.
  assert (2 ^ 42 < 2 ^ 1023) as Hbig by (apply Z.pow_lt_mono_r; lia).
  change (2 ^ 52) with (1024 * 2 ^ 42) in Hb, Hd.
  assert (forall lo hi n, 0 <= lo -> hi < 1024 * 2 ^ 42 -> lo <= 1024 * n <= hi ->
            int_to_float n = Ok (of_Z n) /\
            (n = 0 \/ within lo (hi + 1) (of_Z n))) as Hint.
  { intros lo hi n Hlo Hhi Hn. split; [apply int_to_float_ok; lia|].
    destruct (Z.eq_dec n 0) as [|Hnz]; [now left|right].
    apply (within_weaken (1024 * n) (1024 * n + 1)); [apply of_Z_within| |]; lia. }
  clear Hbig.
  destruct v as [x|x], w as [y|y]; cbn [num_within] in Hv, Hw; unfold py_add, as_float.
  - exists (PyInt (x + y)). split; [reflexivity|]. cbn [num_within]. lia.
  - destruct (Hint a b x Ha Hb Hv) as [-> [->|Hx]]; cbn [rbind];
      eexists; (split; [reflexivity|]); cbn [num_within].
    + destruct Hw as (m & e & -> & Hw). change (add (of_Z 0) (S754_finite false m e))
        with (S754_finite false m e).
      apply (within_weaken c d); [exists m, e; split; [reflexivity | exact Hw] | lia | lia].
    + apply (add_within a (b + 1) c d); auto; lia.
  - destruct (Hint c d y Hc Hd Hw) as [-> [->|Hy]]; cbn [rbind];
      eexists; (split; [reflexivity|]); cbn [num_within].
    + destruct Hv as (m & e & -> & Hv). change (add (S754_finite false m e) (of_Z 0))
        with (S754_finite false m e).
      apply (within_weaken a b); [exists m, e; split; [reflexivity | exact Hv] | lia | lia].
    + apply (add_within a b c (d + 1)); auto; lia.
  - cbn [rbind]. eexists. split; [reflexivity|]. cbn [num_within].
    apply (add_within a b c d); auto; lia.
Qed.

Lemma py_truediv_float_3 (x : float64) :
  py_truediv (PyFloat x) (PyInt 3) =
  Ok (div x (S754_finite false 6755399441055744 (-51))).
Proof. reflexivity. Qed.

Lemma py_truediv_3_within (a b L H : Z) (v : pynum) :
  num_within a b v -> 0 < a -> b < 2 ^ 52 -> 0 < L -> H < 2 ^ 53 ->
  L * 3 <= a -> b < H * 3 ->
  exists q, py_truediv v (PyInt 3) = Ok q /\ within L H q.
Proof.
  intros Hv Ha Hb HL HH Hlo Hhi.
  destruct v as [n|x]; cbn [num_within] in Hv.
  - assert (2 ^ 52 < 2 ^ 1023) as Hbig by (apply Z.pow_lt_mono_r; lia).
    rewrite py_truediv_int_ok by (lia || discriminate).
    eexists. split; [reflexivity|].
    clear Hbig. apply of_ratio_within; lia.
  - rewrite py_truediv_float_3. eexists. split; [reflexivity|].
    apply (div_3_within a b); auto.
Qed.

Lemma min_int_num_within (L H n : Z) (x : float64) :
  within L H x -> 0 <= n < 2 ^ 52 -> L <= 1024 * n ->
  num_within L (1024 * n) (py_min (PyFloat x) (PyInt n)).
Proof.
  intros Hx Hn HL.
  destruct (min_int_within L H n x Hx Hn) as [->|[-> Hw]]; cbn [num_within];
    [lia | exact Hw].
Qed.

(** *** The range of the opportunity score *)

Lemma score_within (kw : keyword_record) :
  100 <= search_volume kw <= 50000 ->
  1 <= difficulty kw <= 100 ->
  within 512 15360 (cpc kw) ->
  exists k, 9 <= k <= 597 /\ calculate_opportunity_score kw = Ok (of_decimal k 1).
Proof.
  intros Hsv Hd Hc.
  assert (within 2560 77824 (mul (cpc kw) (S754_finite false 5629499534213120 (-50)))) as Hp
    by (apply (mul_5_within 512 15360); [exact Hc | | |]; lia).
  assert (within 96 51264 (of_ratio (search_volume kw) 1000)) as Hq
    by (apply of_ratio_within; lia).
  pose proof (min_int_num_within 96 51264 50 _ Hq ltac:(lia) ltac:(lia)) as Hvs.
  pose proof (min_int_num_within 2560 77824 30 _ Hp ltac:(lia) ltac:(lia)) as Hcs.
  change (1024 * 50) with 51200 in Hvs. change (1024 * 30) with 30720 in Hcs.
  assert (num_within 0 101376 (difficulty_score kw)) as Hds
    by (unfold difficulty_score; cbn [num_within]; lia).
  unfold calculate_opportunity_score.
  rewrite volume_score_ok
    by (assert (2 ^ 16 < 2 ^ 1023) by (apply Z.pow_lt_mono_r; lia); lia).
  cbn [rbind]. unfold cpc_score. rewrite py_mul_float_5. cbn [rbind].
  destruct (py_add_within 96 51200 0 101376 96 152640 _ _ Hvs Hds)
    as (vd & -> & Hvd); try lia.
  cbn [rbind].
  destruct (py_add_within 96 152640 2560 30720 2656 183424 _ _ Hvd Hcs)
    as (total & -> & Ht); try lia.
  cbn [rbind].
  destruct (py_truediv_3_within 2656 183424 872 61176 _ Ht) as (mean & -> & Hm); try lia.
  cbn [rbind].
  destruct (round_1_within mean Hm) as (k & Hk & ->).
  exists k. split; [exact Hk | reflexivity].
Qed.

Lemma cpc_within (x : float64) :
  valid x = true -> leb cpc_min x = true ->
  leb x store_cpc_max = true \/ leb x new_cpc_max = true ->
  within 512 15360 x.
Proof.
  intros Hv Hlo Hhi.
  assert (cpc_min = S754_finite false 4503599627370496 (-53)) as E1
    by (vm_compute; reflexivity).
  assert (store_cpc_max = S754_finite false 8444249301319680 (-49)) as E2
    by (vm_compute; reflexivity).
  assert (new_cpc_max = S754_finite false 5629499534213120 (-49)) as E3
    by (vm_compute; reflexivity).
  rewrite E1 in Hlo. rewrite E2, E3 in Hhi. destruct Hhi as [Hhi|Hhi].
  - apply (within_of_leb 512 15360 _ _ _ _ _ Hv Hlo Hhi);
      [lia | lia | lia | lia | vm_compute; reflexivity | vm_compute; reflexivity].
  - apply (within_weaken 512 10240); [|lia|lia].
    apply (within_of_leb 512 10240 _ _ _ _ _ Hv Hlo Hhi);
      [lia | lia | lia | lia | vm_compute; reflexivity | vm_compute; reflexivity].
Qed.

(** X15.  For a record as [_generate_mock_keywords] draws them (a search
    volume of 100 to 50000, a difficulty of 1 to 100, a cpc between 0.5 and
    15.0) the opportunity score is defined and is the float of a decimal
    with one digit between 0.9 and 59.7. *)
Theorem opportunity_score_range (kw : keyword_record) :
  100 <= search_volume kw <= 50000 ->
  1 <= difficulty kw <= 100 ->
  valid (cpc kw) = true ->
  leb cpc_min (cpc kw) = true ->
  leb (cpc kw) store_cpc_max = true ->
  exists k, 9 <= k <= 597 /\ calculate_opportunity_score kw = Ok (of_decimal k 1).
Proof.
  intros Hsv Hd Hv Hlo Hhi. apply score_within; [exact Hsv | exact Hd |].
  apply cpc_within; auto.
Qed.

Lemma opportunity_score_range_example :
  exists k,
    9 <= k <= 597 /\
    calculate_opportunity_score
      {| keyword := "seo tips"; search_volume := 100; difficulty := 100;
         cpc := of_decimal 50 2; competition := "Low"; trend := "Stable";
         category := "SEO" |} = Ok (of_decimal k 1).
Proof.
  apply opportunity_score_range; cbn [search_volume difficulty cpc];
    try lia; vm_compute; reflexivity.
Defined.

(** X16.  After startup, whatever the random generator gives, [analyze]
    returns on every keyword an [opportunity_score] that is the float of a
    decimal with one digit between 0.9 and 59.7, for a record of the store
    and for a record made up for a keyword the store does not hold. *)
Theorem analyze_score_range
        (G : Type) (R : Random G) (L : RandomLaws R) (g g' : G) (keyword0 : string) :
  exists res w',
    analyze_keyword keyword0 (started g g') = (Ok res, w') /\
    exists k, 9 <= k <= 597 /\ opportunity_score res = of_decimal k 1.
Proof.
  destruct (started_ok g g') as [_ Hok].
  destruct (analyze_keyword_spec keyword0 (started g g') (store_ok_scored _ keyword0 Hok))
    as (res & w' & E & Hkw & Hs & _).
  exists res, w'. split; [exact E|].
  assert (exists vmax cents cmax,
             vmax <= 50000 /\ (cmax = store_cpc_max \/ cmax = new_cpc_max) /\
             drawn_record_ok vmax cents cmax (kw_data res))
    as (vmax & cents & cmax & Hmax & Hc & Hv & Hd & _ & V & Hlo & Hhi & _).
  { destruct (find (same_keyword keyword0) (keyword_database (started g g')))
      as [kw|] eqn:F.
    - apply find_some in F. destruct F as [Hin _].
      rewrite Forall_forall in Hok. destruct (Hok kw Hin) as (_ & Hd & _).
      exists 50000, 1500, store_cpc_max. rewrite Hkw.
      split; [lia|]. split; [left; reflexivity | exact Hd].
    - destruct Hkw as (_ & _ & Hd).
      exists 10000, 1000, new_cpc_max.
      split; [lia|]. split; [right; reflexivity | exact Hd]. }
  destruct (score_within (kw_data res)) as (k & Hk & Ek); [lia | exact Hd | |].
  - apply cpc_within; [exact V | exact Hlo |].
    destruct Hc as [-> | ->]; [left | right]; exact Hhi.
  - exists k. split; [exact Hk|]. rewrite Hs in Ek. now injection Ek.
Qed.

Lemma analyze_score_range_example :
  exists res w',
    analyze_keyword (R := Lcg.lcg_random) "seo tips" (started (R := Lcg.lcg_random) example_seed 7)
    = (Ok res, w') /\
    exists k, 9 <= k <= 597 /\ opportunity_score res = of_decimal k 1.
Proof.
  exact (analyze_score_range Z Lcg.lcg_random lcg_laws example_seed 7 "seo tips").
Defined.
